(** * ParKaro: booking lifecycle, pricing, refunds and automation sweeps

    A shallow embedding of the core of the ParKaro Django application
    ([core/models.py], [core/forms.py], [core/views.py], the slot actions
    of [core/admin.py] and the two management commands
    [cleanup_reservations] and [process_parking_automation]), followed by
    the properties of the booking engine that the design document states
    about it and by further properties of the code around it.

    Modelling conventions.
    - A database table is the list of its rows, in key order.  A queryset
      [filter] is [List.filter], [exists()] is [existsb], [order_by] is a
      stable sort, [first()] is the head of the list and [get] is [find].
      Booking and payment keys are handed out by the table; the other
      tables carry no key of their own.
    - A [datetime] is an instant counted in microseconds (the resolution of
      Python's [datetime]); [weekday] and [time_of] read it on the local
      clock.
    - The value of a Python float or of a [DecimalField] column is read as
      an exact rational ([Q]); the quantisation applied by the storage
      layer is not modelled.  Two things are kept as Python has them.
      The hours of a window are computed in binary64 ([SpecFloat]), since
      the hundredth that [round(hours, 2)] picks depends on the binary
      value of the quotient; the rounded hours are then read as that
      decimal of two places.  And where the code combines a column with
      the result of float arithmetic, the operands carry their Python type
      ([Py.number]): arithmetic between a [decimal.Decimal] and a [float]
      raises [TypeError].
    - A view takes the database and the request data and returns the
      response together with the database it leaves behind.  The request
      is the authenticated user, the method, the URL arguments and the
      posted fields already parsed.  Rendering, e-mail and the QR image are
      left out: they write no row. *)

From Stdlib Require Import ZArith QArith Qround List Bool Lia Lqa.
From Stdlib Require Import SpecFloat.
Import ListNotations.

Open Scope Z_scope.

(** ** Python helpers *)

Module Py.

(** [datetime] and [timedelta] values, in microseconds. *)
Definition datetime := Z.
Definition timedelta := Z.
(** [datetime.time]: microseconds since midnight. *)
Definition time := Z.

Definition us_per_second : Z := 1000000.
Definition us_per_minute : Z := 60 * us_per_second.
Definition us_per_hour : Z := 3600 * us_per_second.
Definition us_per_day : Z := 24 * us_per_hour.

(** [timedelta(minutes=m)] *)
Definition minutes (m : Z) : timedelta := m * us_per_minute.

(** [td.total_seconds()] *)
Definition total_seconds (td : timedelta) : Q :=
  inject_Z td / inject_Z us_per_second.

(** [dt.weekday()]: Monday is 0.  Instant 0 is a Thursday. *)
Definition weekday (dt : datetime) : Z := (dt / us_per_day + 3) mod 7.

(** [dt.time()] *)
Definition time_of (dt : datetime) : time := dt mod us_per_day.

(** [round(x)]: nearest integer, ties to the even one. *)
Definition round (x : Q) : Z :=
  let f := Qfloor x in
  match (x - inject_Z f ?= 1 # 2)%Q with
  | Lt => f
  | Gt => f + 1
  | Eq => if Z.even f then f else f + 1
  end.

(** [float]: IEEE 754 binary64, with the operations of [SpecFloat]. *)
Definition float := spec_float.
Definition prec : Z := 53.
Definition emax : Z := 1024.

(** An [int] as the operand of a true division: its exact value. *)
Definition int_operand (n : Z) : float :=
  match n with
  | Z0 => S754_zero false
  | Zpos p => S754_finite false p 0
  | Zneg p => S754_finite true p 0
  end.

(** [a / b]: the quotient, rounded once to the nearest float, ties to the
    even one. *)
Definition truediv (a b : float) : float := SFdiv prec emax a b.

(** The exact value of a finite float.  The quotients of this program are
    finite for every [timedelta] Python can hold. *)
Definition float_value (x : float) : Q :=
  match x with
  | S754_finite s m e =>
    let v := (inject_Z (Zpos m) * 2 ^ e)%Q in
    if s then (- v)%Q else v
  | _ => 0%Q
  end.

(** [round(x, 2)]: the decimal of two places nearest to the exact value of
    the float, ties to the even one. *)
Definition round2 (x : float) : Q :=
  inject_Z (round (float_value x * 100)) / 100.

(** A number with the type Python gives it. *)
Inductive number :=
| Decimal (q : Q)
| Float (q : Q).

Definition value (n : number) : Q :=
  match n with
  | Decimal q | Float q => q
  end.

(** [a op b] for [*], [+] and [-]: [None] is [TypeError], unsupported
    operand types [decimal.Decimal] and [float]. *)
Definition arith (op : Q -> Q -> Q) (a b : number) : option number :=
  match a, b with
  | Decimal x, Decimal y => Some (Decimal (op x y))
  | Float x, Float y => Some (Float (op x y))
  | _, _ => None
  end.

(** [TIME_ZONE = "Asia/Kolkata"]: the local clock is at UTC+05:30. *)
Definition local_utcoffset : timedelta := 330 * us_per_minute.

(** The clock of an aware datetime whose [tzinfo] is the fixed offset
    [utcoffset], for the instant [dt] given on the local clock. *)
Definition wall_clock (dt : datetime) (utcoffset : timedelta) : datetime :=
  dt - local_utcoffset + utcoffset.

(** [max(a, b)]: the first argument unless the second is larger. *)
Definition max (a b : Q) : Q := if Qle_bool b a then a else b.

Definition Qlt_bool (a b : Q) : bool := negb (Qle_bool b a).

End Py.

Import Py.

(** ** core/models.py *)

Record Vehicle := {
  vehicle_id : Z;
  vehicle_owner : Z;
  is_default : bool
}.

Record ParkingLocation := {
  location_id : Z;
  total_slots : Z;
  base_rate_per_hour : Q;
  base_rate_per_day : Q;
  is_active : bool
}.

Inductive SlotStatus :=
| STATUS_AVAILABLE | STATUS_BOOKED | STATUS_MAINTENANCE | STATUS_TEMP_BLOCKED.

Record ParkingSlot := {
  slot_id : Z;
  slot_location : Z;
  slot_status : SlotStatus
}.

Record DynamicPricingRule := {
  rule_location : option Z;
  day_of_week : option Z;
  start_time : time;
  end_time : time;
  multiplier : Q
}.

Record CancellationPolicy := {
  policy_location : option Z;
  min_minutes_before_start : Z;
  refund_percentage : Q
}.

Inductive BookingStatus :=
| STATUS_PENDING_PAYMENT
| STATUS_CONFIRMED
| STATUS_CANCELLED
| STATUS_COMPLETED
| STATUS_NO_SHOW.

Record Booking := {
  id : Z;
  user : Z;
  vehicle : Z;
  location : Z;
  slot : Z;
  status : BookingStatus;
  entry_datetime_expected : datetime;
  exit_datetime_expected : datetime;
  actual_entry_datetime : option datetime;
  actual_exit_datetime : option datetime;
  duration_hours_booked : Q;
  amount_expected : Q;
  amount_paid : Q;
  reservation_expires_at : option datetime
}.

Inductive PaymentStatus :=
| PAY_INITIATED | PAY_SUCCESS | PAY_FAILED | PAY_REFUNDED | PAY_PARTIAL_REFUND.

Inductive PaymentMethod := DUMMY_GATEWAY | REFUND.

Record Payment := {
  payment_id : Z;
  payment_booking : Z;
  payment_amount : Q;
  payment_status : PaymentStatus;
  payment_method : PaymentMethod
}.

Record BookingExtension := {
  extension_booking : Z;
  extra_hours : Q;
  extra_amount : Q;
  extension_payment : option Z
}.

Inductive FineStatus := FINE_UNPAID | FINE_PAID.

Record Fine := {
  fine_booking : Z;
  fine_amount : Q;
  fine_status : FineStatus
}.

Inductive NotificationType :=
| TYPE_BOOKING_CONFIRMATION | TYPE_EXPIRY_REMINDER | TYPE_FINE_ALERT.

Inductive Channel := CHANNEL_EMAIL | CHANNEL_SMS | CHANNEL_IN_APP.

Record NotificationLog := {
  notification_user : Z;
  notification_type : NotificationType;
  notification_channel : Channel
}.

Inductive EventType := EVENT_ENTRY | EVENT_EXIT.

Record EntryExitLog := {
  log_booking : Z;
  log_employee : option Z;
  event_type : EventType
}.

(** Decidable equality on the enumerations, as boolean tests. *)

Definition booking_status_eqb (a b : BookingStatus) : bool :=
  match a, b with
  | STATUS_PENDING_PAYMENT, STATUS_PENDING_PAYMENT
  | STATUS_CONFIRMED, STATUS_CONFIRMED
  | STATUS_CANCELLED, STATUS_CANCELLED
  | STATUS_COMPLETED, STATUS_COMPLETED
  | STATUS_NO_SHOW, STATUS_NO_SHOW => true
  | _, _ => false
  end.

Definition fine_status_eqb (a b : FineStatus) : bool :=
  match a, b with
  | FINE_UNPAID, FINE_UNPAID | FINE_PAID, FINE_PAID => true
  | _, _ => false
  end.

(** A nullable integer column compared with a value: NULL matches nothing. *)
Definition col_eqb (c : option Z) (v : Z) : bool :=
  match c with
  | Some x => x =? v
  | None => false
  end.

Definition col_isnull (c : option Z) : bool :=
  match c with
  | Some _ => false
  | None => true
  end.

(** ** The database *)

Record DB := {
  vehicles : list Vehicle;
  locations : list ParkingLocation;
  slots : list ParkingSlot;
  pricing_rules : list DynamicPricingRule;
  cancellation_policies : list CancellationPolicy;
  bookings : list Booking;
  booking_seq : Z;
  payments : list Payment;
  extensions : list BookingExtension;
  fines : list Fine;
  notifications : list NotificationLog;
  entry_exit_logs : list EntryExitLog
}.

Definition with_bookings (db : DB) (bs : list Booking) (seq : Z) : DB :=
  {| vehicles := vehicles db; locations := locations db; slots := slots db;
     pricing_rules := pricing_rules db;
     cancellation_policies := cancellation_policies db;
     bookings := bs; booking_seq := seq;
     payments := payments db; extensions := extensions db;
     fines := fines db; notifications := notifications db;
     entry_exit_logs := entry_exit_logs db |}.

Definition with_payments (db : DB) (ps : list Payment) : DB :=
  {| vehicles := vehicles db; locations := locations db; slots := slots db;
     pricing_rules := pricing_rules db;
     cancellation_policies := cancellation_policies db;
     bookings := bookings db; booking_seq := booking_seq db;
     payments := ps; extensions := extensions db;
     fines := fines db; notifications := notifications db;
     entry_exit_logs := entry_exit_logs db |}.

Definition with_extensions (db : DB) (es : list BookingExtension) : DB :=
  {| vehicles := vehicles db; locations := locations db; slots := slots db;
     pricing_rules := pricing_rules db;
     cancellation_policies := cancellation_policies db;
     bookings := bookings db; booking_seq := booking_seq db;
     payments := payments db; extensions := es;
     fines := fines db; notifications := notifications db;
     entry_exit_logs := entry_exit_logs db |}.

Definition with_fines (db : DB) (fs : list Fine) : DB :=
  {| vehicles := vehicles db; locations := locations db; slots := slots db;
     pricing_rules := pricing_rules db;
     cancellation_policies := cancellation_policies db;
     bookings := bookings db; booking_seq := booking_seq db;
     payments := payments db; extensions := extensions db;
     fines := fs; notifications := notifications db;
     entry_exit_logs := entry_exit_logs db |}.

Definition with_notifications (db : DB) (ns : list NotificationLog) : DB :=
  {| vehicles := vehicles db; locations := locations db; slots := slots db;
     pricing_rules := pricing_rules db;
     cancellation_policies := cancellation_policies db;
     bookings := bookings db; booking_seq := booking_seq db;
     payments := payments db; extensions := extensions db;
     fines := fines db; notifications := ns;
     entry_exit_logs := entry_exit_logs db |}.

Definition with_entry_exit_logs (db : DB) (ls : list EntryExitLog) : DB :=
  {| vehicles := vehicles db; locations := locations db; slots := slots db;
     pricing_rules := pricing_rules db;
     cancellation_policies := cancellation_policies db;
     bookings := bookings db; booking_seq := booking_seq db;
     payments := payments db; extensions := extensions db;
     fines := fines db; notifications := notifications db;
     entry_exit_logs := ls |}.

(** *** The ORM calls the views make *)

Module Orm.

(** [Model.objects.create(...)] on the tables without a modelled key. *)
Definition create_extension (db : DB) (e : BookingExtension) : DB :=
  with_extensions db (extensions db ++ [e]).

Definition create_fine (db : DB) (f : Fine) : DB :=
  with_fines db (fines db ++ [f]).

Definition create_notification (db : DB) (n : NotificationLog) : DB :=
  with_notifications db (notifications db ++ [n]).

Definition create_entry_exit_log (db : DB) (l : EntryExitLog) : DB :=
  with_entry_exit_logs db (entry_exit_logs db ++ [l]).

(** [Payment.objects.create(...)]: the key is assigned by the table. *)
Definition create_payment (db : DB) (booking : Z) (amount : Q)
    (st : PaymentStatus) (m : PaymentMethod) : Payment * DB :=
  let p := {| payment_id := Z.of_nat (length (payments db)) + 1;
              payment_booking := booking; payment_amount := amount;
              payment_status := st; payment_method := m |} in
  (p, with_payments db (payments db ++ [p])).

(** [booking.save()] of an instance that has no key yet: the next key
    of the sequence is assigned and the row is appended. *)
Definition insert_booking (db : DB) (b : Z -> Booking) : Booking * DB :=
  let k := booking_seq db + 1 in
  (b k, with_bookings db (bookings db ++ [b k]) k).

(** [booking.save(...)] of an instance that has a key: the row with that
    key is rewritten, [write] giving the columns that are saved. *)
Definition update_booking (db : DB) (k : Z) (write : Booking -> Booking) : DB :=
  with_bookings db
    (map (fun row => if id row =? k then write row else row) (bookings db))
    (booking_seq db).

(** [Model.objects.filter(pk=k).first()] and the like. *)
Definition get_location (db : DB) (k : Z) : option ParkingLocation :=
  find (fun l => location_id l =? k) (locations db).

Definition get_booking (db : DB) (k : Z) : option Booking :=
  find (fun b => id b =? k) (bookings db).

End Orm.

Import Orm.

(** ** core/forms.py *)

(** [BookingForm.is_valid()]: both fields are required, and [clean] refuses
    a window whose exit is not after its entry.  The cleaned window is
    returned when the form is valid.  The fields are read on the local
    clock, as the form reads the values of its [datetime-local] inputs. *)
Definition BookingForm_clean (entry exit_ : option datetime)
  : option (datetime * datetime) :=
  match entry, exit_ with
  | Some e, Some x => if x <=? e then None else Some (e, x)
  | _, _ => None
  end.

(** ** core/views.py *)

Inductive Method := GET | POST.

Inductive Level := ERROR | SUCCESS | INFO.

(** The flash messages of the views. *)
Inductive Message :=
| MsgSlotAlreadyBooked
| MsgBookingCreated
| MsgSelectNewExit
| MsgNewExitAfterCurrent
| MsgSlotNotAvailableForExtension
| MsgBookingExtended
| MsgOnlyCancelBeforeStart
| MsgBookingCancelled
| MsgInvalidBookingCode
| MsgEntryRecorded
| MsgExitRecorded
| MsgAlreadyRecorded.

Inductive Exception := IntegrityError | DoesNotExist | TypeError | ValueError.

Inductive Response :=
| Http404
| Render
| Redirect (level : Level) (message : Message)
| Raised (e : Exception).

(** [td.total_seconds() / 3600], in binary64: the microseconds over
    [10**6], then the seconds over 3600. *)
Definition hours_of (td : timedelta) : float :=
  truediv (truediv (int_operand td) (int_operand 1000000)) (int_operand 3600).

(** [Booking.objects.filter(slot=slot, status=CONFIRMED,
      entry_datetime_expected__lt=window_end,
      exit_datetime_expected__gt=window_start)] *)
Definition overlaps (slot_ : Z) (window_start window_end : datetime)
    (b : Booking) : bool :=
  (slot b =? slot_) && booking_status_eqb (status b) STATUS_CONFIRMED
  && (entry_datetime_expected b <? window_end)
  && (exit_datetime_expected b >? window_start).

(** [DynamicPricingRule.objects.filter(location=location,
      day_of_week=at.weekday())] *)
Definition rules_for (db : DB) (location_ : Z) (at_ : datetime)
  : list DynamicPricingRule :=
  filter (fun r => col_eqb (rule_location r) location_
                   && col_eqb (day_of_week r) (weekday at_))
         (pricing_rules db).

(** The loop over the rules: [multiplier] starts at 1.0 and is raised by
    every rule whose time window holds the clock time of [at_]. *)
Definition pricing_multiplier (db : DB) (location_ : Z) (at_ : datetime) : Q :=
  fold_left
    (fun m rule =>
       if (start_time rule <=? time_of at_) && (time_of at_ <=? end_time rule)
       then Py.max m (multiplier rule) else m)
    (rules_for db location_ at_) 1%Q.

(** The fee of a new booking of [duration] hours. *)
Definition booking_fee (loc : ParkingLocation) (duration mult : Q) : Q :=
  let effective_rate := (base_rate_per_hour loc * mult)%Q in
  if Qle_bool 8 duration then
    let days := if Qeq_bool (duration / 24) 0 then 1%Q else (duration / 24)%Q in
    (base_rate_per_day loc * inject_Z (Py.round days))%Q
  else (duration * effective_rate)%Q.

(** [get_object_or_404(ParkingLocation, pk=location_id, is_active=True)] *)
Definition get_active_location (db : DB) (location_id_ : Z)
  : option ParkingLocation :=
  find (fun l => (location_id l =? location_id_) && is_active l)
       (locations db).

(** [get_object_or_404(ParkingSlot, pk=slot_id, location=location)] *)
Definition get_slot_of (db : DB) (slot_id_ : Z) (loc : ParkingLocation)
  : option ParkingSlot :=
  find (fun s => (slot_id s =? slot_id_) && (slot_location s =? location_id loc))
       (slots db).

(** [Vehicle.objects.filter(owner=request.user, is_default=True).first()] *)
Definition default_vehicle (db : DB) (request_user : Z) : option Vehicle :=
  find (fun v => (vehicle_owner v =? request_user) && is_default v)
       (vehicles db).

Definition create_booking (db : DB) (request_user : Z) (method : Method)
    (location_id_ slot_id_ : Z) (form_entry form_exit : option datetime)
    (now : datetime) : Response * DB :=
  match get_active_location db location_id_ with
  | None => (Http404, db)
  | Some loc =>
    match get_slot_of db slot_id_ loc with
    | None => (Http404, db)
    | Some slot_ =>
      let vehicle_ := default_vehicle db request_user in
      match method with
      | GET => (Render, db)
      | POST =>
        match BookingForm_clean form_entry form_exit with
        | None => (Render, db)
        | Some (entry, exit_) =>
          if existsb (overlaps (slot_id slot_) entry exit_) (bookings db)
          then (Redirect ERROR MsgSlotAlreadyBooked, db)
          else
            let duration := Py.round2 (hours_of (exit_ - entry)) in
            let mult := pricing_multiplier db (location_id loc) entry in
            let amount := booking_fee loc duration mult in
            match vehicle_ with
            | None => (Raised IntegrityError, db)
            | Some v =>
              let pending k :=
                {| id := k; user := request_user; vehicle := vehicle_id v;
                   location := location_id loc; slot := slot_id slot_;
                   status := STATUS_PENDING_PAYMENT;
                   entry_datetime_expected := entry;
                   exit_datetime_expected := exit_;
                   actual_entry_datetime := None;
                   actual_exit_datetime := None;
                   duration_hours_booked := duration;
                   amount_expected := amount;
                   amount_paid := 0;
                   reservation_expires_at := Some (now + minutes 10) |} in
              let (booking, db1) := insert_booking db pending in
              let (payment, db2) :=
                create_payment db1 (id booking) (amount_expected booking)
                               PAY_SUCCESS DUMMY_GATEWAY in
              let confirmed :=
                {| id := id booking; user := user booking;
                   vehicle := vehicle booking; location := location booking;
                   slot := slot booking;
                   status := STATUS_CONFIRMED;
                   entry_datetime_expected := entry_datetime_expected booking;
                   exit_datetime_expected := exit_datetime_expected booking;
                   actual_entry_datetime := actual_entry_datetime booking;
                   actual_exit_datetime := actual_exit_datetime booking;
                   duration_hours_booked := duration_hours_booked booking;
                   amount_expected := amount_expected booking;
                   amount_paid := amount_expected booking;
                   reservation_expires_at := None |} in
              let db3 := update_booking db2 (id booking) (fun _ => confirmed) in
              (Redirect SUCCESS MsgBookingCreated, db3)
            end
        end
      end
    end
  end.

(** [get_object_or_404(Booking, pk=booking_id, user=request.user,
      status=Booking.STATUS_CONFIRMED)] *)
Definition get_confirmed_booking (db : DB) (booking_id request_user : Z)
  : option Booking :=
  find (fun b => (id b =? booking_id) && (user b =? request_user)
                 && booking_status_eqb (status b) STATUS_CONFIRMED)
       (bookings db).

Definition set_exit_and_amounts (exit_ : datetime) (expected paid : Q)
    (row : Booking) : Booking :=
  {| id := id row; user := user row; vehicle := vehicle row;
     location := location row; slot := slot row; status := status row;
     entry_datetime_expected := entry_datetime_expected row;
     exit_datetime_expected := exit_;
     actual_entry_datetime := actual_entry_datetime row;
     actual_exit_datetime := actual_exit_datetime row;
     duration_hours_booked := duration_hours_booked row;
     amount_expected := expected;
     amount_paid := paid;
     reservation_expires_at := reservation_expires_at row |}.

(** The posted [new_exit] as [request.POST.get] and [parse_datetime] read
    it. *)
Inductive Posted :=
| NoValue                        (* absent or empty *)
| NotWellFormatted               (* [parse_datetime] returns [None] *)
| NotValid                       (* [parse_datetime] raises [ValueError] *)
| Naive (wall : datetime)        (* a datetime without UTC offset *)
| Aware (instant : datetime) (utcoffset : timedelta).

(** Lines 531 to 538: the columns of the booking are added to and saved. *)
Definition save_extension (db : DB) (booking : Booking) (new_exit : datetime)
    (extra_amount_ : number) : Response * DB :=
  match arith Qplus (Decimal (amount_expected booking)) extra_amount_ with
  | None => (Raised TypeError, db)
  | Some expected =>
    match arith Qplus (Decimal (amount_paid booking)) extra_amount_ with
    | None => (Raised TypeError, db)
    | Some paid =>
      let db1 :=
        update_booking db (id booking)
          (set_exit_and_amounts new_exit (value expected) (value paid)) in
      (Redirect SUCCESS MsgBookingExtended, db1)
    end
  end.

Definition extend_booking (db : DB) (request_user : Z) (method : Method)
    (booking_id : Z) (new_exit_str : Posted)
  : Response * DB :=
  match get_confirmed_booking db booking_id request_user with
  | None => (Http404, db)
  | Some booking =>
    match method with
    | GET => (Render, db)
    | POST =>
      match new_exit_str with
      | NoValue => (Redirect ERROR MsgSelectNewExit, db)
      | NotWellFormatted => (Redirect ERROR MsgNewExitAfterCurrent, db)
      | NotValid => (Raised ValueError, db)
      | Naive _ =>
        (* [new_exit <= booking.exit_datetime_expected] compares a naive
           datetime with an aware one *)
        (Raised TypeError, db)
      | Aware new_exit utcoffset =>
        if new_exit <=? exit_datetime_expected booking
        then (Redirect ERROR MsgNewExitAfterCurrent, db)
        else if existsb
                  (fun b => overlaps (slot booking)
                              (exit_datetime_expected booking) new_exit b
                            && negb (id b =? id booking))
                  (bookings db)
        then (Redirect ERROR MsgSlotNotAvailableForExtension, db)
        else
          let extra_hours_ :=
            Py.round2 (hours_of (new_exit - exit_datetime_expected booking)) in
          match get_location db (location booking) with
          | None => (Raised DoesNotExist, db)
          | Some loc =>
            let base_rate := base_rate_per_hour loc in
            let mult :=
              pricing_multiplier db (location_id loc)
                                 (wall_clock new_exit utcoffset) in
            let effective_rate := (base_rate * mult)%Q in
            let extra_amount_ := (extra_hours_ * effective_rate)%Q in
            let (payment, db1) :=
              create_payment db (id booking) extra_amount_
                             PAY_SUCCESS DUMMY_GATEWAY in
            let db2 :=
              create_extension db1
                {| extension_booking := id booking;
                   extra_hours := extra_hours_;
                   extra_amount := extra_amount_;
                   extension_payment := Some (payment_id payment) |} in
            save_extension db2 booking new_exit (Float extra_amount_)
          end
      end
    end
  end.

(** *** Cancellation *)

(** [CancellationPolicy.objects.filter(
      Q(location=booking.location) | Q(location__isnull=True),
      min_minutes_before_start__lte=minutes_before)] *)
Definition policy_applies (location_ : Z) (minutes_before : Q)
    (p : CancellationPolicy) : bool :=
  (col_eqb (policy_location p) location_ || col_isnull (policy_location p))
  && Qle_bool (inject_Z (min_minutes_before_start p)) minutes_before.

(** [.order_by("-min_minutes_before_start")]: rows with equal thresholds
    keep their storage order. *)
Fixpoint insert_by_threshold (p : CancellationPolicy)
    (l : list CancellationPolicy) : list CancellationPolicy :=
  match l with
  | [] => [p]
  | q :: rest =>
    if min_minutes_before_start p <? min_minutes_before_start q
    then q :: insert_by_threshold p rest
    else p :: q :: rest
  end.

Definition order_by_threshold_desc (l : list CancellationPolicy)
  : list CancellationPolicy :=
  fold_right insert_by_threshold [] l.

(** The "best matching cancellation policy" query of [cancel_booking]. *)
Definition best_policy (db : DB) (location_ : Z) (minutes_before : Q)
  : option CancellationPolicy :=
  hd_error
    (order_by_threshold_desc
       (filter (policy_applies location_ minutes_before)
               (cancellation_policies db))).

(** [float(policy.refund_percentage) if policy else 0.0] *)
Definition resolved_refund_percentage (db : DB) (location_ : Z)
    (minutes_before : Q) : Q :=
  match best_policy db location_ minutes_before with
  | Some policy => refund_percentage policy
  | None => 0%Q
  end.

(** [(booking.entry_datetime_expected - now).total_seconds() / 60] *)
Definition minutes_before_start (booking : Booking) (now : datetime) : Q :=
  total_seconds (entry_datetime_expected booking - now) / 60.

Definition set_status_and_paid (st : BookingStatus) (paid : Q)
    (row : Booking) : Booking :=
  {| id := id row; user := user row; vehicle := vehicle row;
     location := location row; slot := slot row; status := st;
     entry_datetime_expected := entry_datetime_expected row;
     exit_datetime_expected := exit_datetime_expected row;
     actual_entry_datetime := actual_entry_datetime row;
     actual_exit_datetime := actual_exit_datetime row;
     duration_hours_booked := duration_hours_booked row;
     amount_expected := amount_expected row;
     amount_paid := paid;
     reservation_expires_at := reservation_expires_at row |}.

(** Lines 572 to 605: the refund row, the columns of the booking, the
    notification. *)
Definition refund_and_cancel (db : DB) (booking : Booking)
    (refundable_amount : number) : Response * DB :=
  let cancelled (db1 : DB) (paid : Q) :=
    let db2 :=
      update_booking db1 (id booking)
        (set_status_and_paid STATUS_CANCELLED paid) in
    let db3 :=
      create_notification db2
        {| notification_user := user booking;
           notification_type := TYPE_BOOKING_CONFIRMATION;
           notification_channel := CHANNEL_IN_APP |} in
    (Redirect SUCCESS MsgBookingCancelled, db3) in
  if Qlt_bool 0 (value refundable_amount) then
    let (_, db1) :=
      create_payment db (id booking) (value refundable_amount)
                     PAY_REFUNDED REFUND in
    match arith Qminus (Decimal (amount_paid booking)) refundable_amount with
    | None => (Raised TypeError, db1)
    | Some paid =>
      cancelled db1 (if Qlt_bool (value paid) 0 then 0%Q else value paid)
    end
  else cancelled db (amount_paid booking).

Definition cancel_booking (db : DB) (request_user : Z) (method : Method)
    (booking_id : Z) (now : datetime) : Response * DB :=
  match get_confirmed_booking db booking_id request_user with
  | None => (Http404, db)
  | Some booking =>
    if entry_datetime_expected booking <=? now
    then (Redirect ERROR MsgOnlyCancelBeforeStart, db)
    else
      let minutes_before := minutes_before_start booking now in
      let refund_percentage_ :=
        resolved_refund_percentage db (location booking) minutes_before in
      (* [booking.amount_paid * (refund_percentage / 100.0)] *)
      match arith Qmult (Decimal (amount_paid booking))
                  (Float (refund_percentage_ / 100)) with
      | None => (Raised TypeError, db)
      | Some refundable_amount =>
        match method with
        | POST => refund_and_cancel db booking refundable_amount
        | GET => (Render, db)
        end
      end
  end.

(** *** Entry and exit scans *)

Definition set_actual_entry (at_ : datetime) (row : Booking) : Booking :=
  {| id := id row; user := user row; vehicle := vehicle row;
     location := location row; slot := slot row; status := status row;
     entry_datetime_expected := entry_datetime_expected row;
     exit_datetime_expected := exit_datetime_expected row;
     actual_entry_datetime := Some at_;
     actual_exit_datetime := actual_exit_datetime row;
     duration_hours_booked := duration_hours_booked row;
     amount_expected := amount_expected row;
     amount_paid := amount_paid row;
     reservation_expires_at := reservation_expires_at row |}.

Definition set_actual_exit_and_status (at_ : datetime) (st : BookingStatus)
    (row : Booking) : Booking :=
  {| id := id row; user := user row; vehicle := vehicle row;
     location := location row; slot := slot row; status := st;
     entry_datetime_expected := entry_datetime_expected row;
     exit_datetime_expected := exit_datetime_expected row;
     actual_entry_datetime := actual_entry_datetime row;
     actual_exit_datetime := Some at_;
     duration_hours_booked := duration_hours_booked row;
     amount_expected := amount_expected row;
     amount_paid := amount_paid row;
     reservation_expires_at := reservation_expires_at row |}.

(** [code] is the booking key read from the posted text, [None] when the
    text is not a number. *)
Definition staff_scan_qr (db : DB) (method : Method) (code : option Z)
    (now : datetime) : Response * DB :=
  match method with
  | GET => (Render, db)
  | POST =>
    match code with
    | None => (Redirect ERROR MsgInvalidBookingCode, db)
    | Some booking_id =>
      match get_booking db booking_id with
      | None => (Redirect ERROR MsgInvalidBookingCode, db)
      | Some booking =>
        match actual_entry_datetime booking with
        | None =>
          let db1 := update_booking db (id booking) (set_actual_entry now) in
          let db2 :=
            create_entry_exit_log db1
              {| log_booking := id booking; log_employee := None;
                 event_type := EVENT_ENTRY |} in
          (Redirect INFO MsgEntryRecorded, db2)
        | Some _ =>
          match actual_exit_datetime booking with
          | None =>
            let db1 :=
              update_booking db (id booking)
                (set_actual_exit_and_status now STATUS_COMPLETED) in
            let db2 :=
              create_entry_exit_log db1
                {| log_booking := id booking; log_employee := None;
                   event_type := EVENT_EXIT |} in
            (Redirect INFO MsgExitRecorded, db2)
          | Some _ => (Redirect INFO MsgAlreadyRecorded, db)
          end
        end
      end
    end
  end.

(** ** core/management/commands *)

Inductive CommandResult := Done | Failed (e : Exception).

Definition set_status (st : BookingStatus) (row : Booking) : Booking :=
  set_status_and_paid st (amount_paid row) row.

Module cleanup_reservations.

Definition expired (now : datetime) (b : Booking) : bool :=
  booking_status_eqb (status b) STATUS_PENDING_PAYMENT
  && match reservation_expires_at b with
     | Some t => t <? now
     | None => false
     end.

Definition handle (db : DB) (now : datetime) : CommandResult * DB :=
  let expired_bookings := filter (expired now) (bookings db) in
  (Done,
   fold_left
     (fun db' booking =>
        update_booking db' (id booking) (set_status STATUS_CANCELLED))
     expired_bookings db).

End cleanup_reservations.

Module process_parking_automation.

Definition ending_soon (now : datetime) (b : Booking) : bool :=
  booking_status_eqb (status b) STATUS_CONFIRMED
  && (exit_datetime_expected b >=? now)
  && (exit_datetime_expected b <=? now + minutes 30).

Definition overtime (now : datetime) (b : Booking) : bool :=
  booking_status_eqb (status b) STATUS_CONFIRMED
  && (exit_datetime_expected b <? now).

(** [booking.fines.filter(status=Fine.STATUS_UNPAID).exists()] *)
Definition has_unpaid_fine (db : DB) (booking : Booking) : bool :=
  existsb (fun f => (fine_booking f =? id booking)
                    && fine_status_eqb (fine_status f) FINE_UNPAID)
          (fines db).

Definition remind (db : DB) (booking : Booking) : DB :=
  create_notification db
    {| notification_user := user booking;
       notification_type := TYPE_EXPIRY_REMINDER;
       notification_channel := CHANNEL_EMAIL |}.

(** The loop over the overtime bookings.  A booking whose location row
    is missing stops the command with the rows written so far. *)
Fixpoint fine_overtime (overtime_bookings : list Booking) (db : DB)
  : CommandResult * DB :=
  match overtime_bookings with
  | [] => (Done, db)
  | booking :: rest =>
    if has_unpaid_fine db booking then fine_overtime rest db
    else
      match get_location db (location booking) with
      | None => (Failed DoesNotExist, db)
      | Some loc =>
        let fine_amount_ := base_rate_per_hour loc in
        let db1 :=
          create_fine db
            {| fine_booking := id booking; fine_amount := fine_amount_;
               fine_status := FINE_UNPAID |} in
        let db2 :=
          create_notification db1
            {| notification_user := user booking;
               notification_type := TYPE_FINE_ALERT;
               notification_channel := CHANNEL_EMAIL |} in
        fine_overtime rest db2
      end
  end.

Definition handle (db : DB) (now : datetime) : CommandResult * DB :=
  let reminder_bookings := filter (ending_soon now) (bookings db) in
  let db1 := fold_left remind reminder_bookings db in
  let overtime_bookings := filter (overtime now) (bookings db1) in
  fine_overtime overtime_bookings db1.

End process_parking_automation.

(** ** The core operations as a transition system *)

Inductive Op :=
| OpCreate (request_user : Z) (method : Method) (location_id_ slot_id_ : Z)
           (form_entry form_exit : option datetime) (now : datetime)
| OpExtend (request_user : Z) (method : Method) (booking_id : Z)
           (new_exit_str : Posted)
| OpCancel (request_user : Z) (method : Method) (booking_id : Z)
           (now : datetime)
| OpScan (method : Method) (code : option Z) (now : datetime)
| OpExpirySweep (now : datetime)
| OpOvertimeSweep (now : datetime).

Definition apply_op (db : DB) (o : Op) : DB :=
  match o with
  | OpCreate u m l s e x now => snd (create_booking db u m l s e x now)
  | OpExtend u m b x => snd (extend_booking db u m b x)
  | OpCancel u m b now => snd (cancel_booking db u m b now)
  | OpScan m c now => snd (staff_scan_qr db m c now)
  | OpExpirySweep now => snd (cleanup_reservations.handle db now)
  | OpOvertimeSweep now => snd (process_parking_automation.handle db now)
  end.

Definition run (ops : list Op) (db : DB) : DB := fold_left apply_op ops db.

(** ** The design document's pricing multiplier

    The multiplier as the design document words it, to compare with
    [pricing_multiplier]: the largest of 1.0 and the multipliers of the
    rules whose location is this location or none (global), whose day is
    the weekday of the instant or none (any day), and whose time window
    holds the clock time of the instant. *)

Definition spec_rule_matches (location_ : Z) (at_ : datetime)
    (r : DynamicPricingRule) : bool :=
  (col_eqb (rule_location r) location_ || col_isnull (rule_location r))
  && (col_eqb (day_of_week r) (weekday at_) || col_isnull (day_of_week r))
  && (start_time r <=? time_of at_) && (time_of at_ <=? end_time r).

Definition spec_multiplier (db : DB) (location_ : Z) (at_ : datetime) : Q :=
  fold_left Py.max
    (map multiplier (filter (spec_rule_matches location_ at_) (pricing_rules db)))
    1%Q.

(** ** A small car park, for the worked scenarios *)

Module Scenario.

(** Instant of [hh:mm] on the [d]-th day of the calendar; day 4 is the
    first Monday. *)
Definition at_clock (d hh mm : Z) : datetime :=
  d * us_per_day + hh * us_per_hour + mm * us_per_minute.

Definition clock (hh mm : Z) : time := hh * us_per_hour + mm * us_per_minute.

Definition monday : Z := 4.

Definition alice : Z := 7.

Definition car_park : ParkingLocation :=
  {| location_id := 1; total_slots := 2;
     base_rate_per_hour := 100; base_rate_per_day := 600;
     is_active := true |}.

Definition empty : DB :=
  {| vehicles := [ {| vehicle_id := 1; vehicle_owner := alice;
                      is_default := true |} ];
     locations := [car_park];
     slots := [ {| slot_id := 1; slot_location := 1;
                   slot_status := STATUS_AVAILABLE |};
                {| slot_id := 2; slot_location := 1;
                   slot_status := STATUS_AVAILABLE |} ];
     pricing_rules := [];
     cancellation_policies := [];
     bookings := []; booking_seq := 0;
     payments := []; extensions := []; fines := [];
     notifications := []; entry_exit_logs := [] |}.

Definition with_rules (db : DB) (rs : list DynamicPricingRule) : DB :=
  {| vehicles := vehicles db; locations := locations db; slots := slots db;
     pricing_rules := rs;
     cancellation_policies := cancellation_policies db;
     bookings := bookings db; booking_seq := booking_seq db;
     payments := payments db; extensions := extensions db;
     fines := fines db; notifications := notifications db;
     entry_exit_logs := entry_exit_logs db |}.

Definition with_policies (db : DB) (ps : list CancellationPolicy) : DB :=
  {| vehicles := vehicles db; locations := locations db; slots := slots db;
     pricing_rules := pricing_rules db;
     cancellation_policies := ps;
     bookings := bookings db; booking_seq := booking_seq db;
     payments := payments db; extensions := extensions db;
     fines := fines db; notifications := notifications db;
     entry_exit_logs := entry_exit_logs db |}.

(** A rule for every location, on Mondays from 09:00 to 12:00. *)
Definition global_rule : DynamicPricingRule :=
  {| rule_location := None; day_of_week := Some 0;
     start_time := clock 9 0; end_time := clock 12 0;
     multiplier := 1.5 |}.

(** A rule of the car park for any day, from 09:00 to 12:00. *)
Definition any_day_rule : DynamicPricingRule :=
  {| rule_location := Some 1; day_of_week := None;
     start_time := clock 9 0; end_time := clock 12 0;
     multiplier := 1.5 |}.

(** A rule of the car park for Mondays, from 09:00 to 12:00. *)
Definition monday_rule : DynamicPricingRule :=
  {| rule_location := Some 1; day_of_week := Some 0;
     start_time := clock 9 0; end_time := clock 12 0;
     multiplier := 1.5 |}.

(** Global: 50% from 60 minutes before the start. *)
Definition global_60_50 : CancellationPolicy :=
  {| policy_location := None; min_minutes_before_start := 60;
     refund_percentage := 50 |}.

(** The car park's own: 20% from 30 minutes before the start. *)
Definition local_30_20 : CancellationPolicy :=
  {| policy_location := Some 1; min_minutes_before_start := 30;
     refund_percentage := 20 |}.

(** Global: everything back at any time before the start. *)
Definition global_0_100 : CancellationPolicy :=
  {| policy_location := None; min_minutes_before_start := 0;
     refund_percentage := 100 |}.

(** Alice books slot 1 on the first Monday. *)
Definition book (db : DB) (slot_ : Z) (h1 m1 h2 m2 : Z) : Response * DB :=
  create_booking db alice POST 1 slot_
    (Some (at_clock monday h1 m1)) (Some (at_clock monday h2 m2))
    (at_clock 0 0 0).

(** The car park after Alice has booked slot 1 from 09:00 to 11:00 for
    200.00. *)
Definition booked_9_to_11 : DB := snd (book empty 1 9 0 11 0).

(** The car park after Alice has booked slot 1 from 08:00 to 18:00. *)
Definition booked_8_to_18 : DB := snd (book empty 1 8 0 18 0).

(** Alice books slot 1 from 09:00 to 11:00 and from 11:00 to 12:00,
    asks to extend the first booking to 11:30 (refused: the second one
    holds the slot) and the second one to 13:00, both times posting the
    new exit with the offset +05:30. *)
Definition busy_morning : list Op :=
  [ OpCreate alice POST 1 1 (Some (at_clock monday 9 0))
             (Some (at_clock monday 11 0)) (at_clock 0 0 0);
    OpCreate alice POST 1 1 (Some (at_clock monday 11 0))
             (Some (at_clock monday 12 0)) (at_clock 0 0 0);
    OpExtend alice POST 1 (Aware (at_clock monday 11 30) local_utcoffset);
    OpExtend alice POST 2 (Aware (at_clock monday 13 0) local_utcoffset) ].

(** Alice books slot 1 from 09:00 to 11:00, is scanned in at 08:50 and
    asks to cancel at 08:55, before the expected entry; the request raises
    and the booking stays confirmed. *)
Definition scanned_in_then_cancelled : list Op :=
  [ OpCreate alice POST 1 1 (Some (at_clock monday 9 0))
             (Some (at_clock monday 11 0)) (at_clock 0 0 0);
    OpScan POST (Some 1) (at_clock monday 8 50);
    OpCancel alice POST 1 (at_clock monday 8 55) ].

(** Alice books slot 1 from 09:00 to 11:00, is scanned in at 08:50 and
    out at 10:40. *)
Definition scanned_in_and_out : list Op :=
  [ OpCreate alice POST 1 1 (Some (at_clock monday 9 0))
             (Some (at_clock monday 11 0)) (at_clock 0 0 0);
    OpScan POST (Some 1) (at_clock monday 8 50);
    OpScan POST (Some 1) (at_clock monday 10 40) ].

(** What Alice and the staff may try next: cancel, extend, scan again, and
    both sweeps the next day. *)
Definition afterwards : list Op :=
  [ OpCancel alice POST 1 (at_clock monday 10 45);
    OpExtend alice POST 1 (Aware (at_clock monday 12 0) local_utcoffset);
    OpScan POST (Some 1) (at_clock monday 10 50);
    OpExpirySweep (at_clock (monday + 1) 0 0);
    OpOvertimeSweep (at_clock (monday + 1) 0 0) ].

(** Alice's booking of 09:00 to 11:00, left unpaid and expired, as the
    expiry sweep of Tuesday 00:00 cancelled it. *)
Definition reclaimed : DB :=
  snd (cleanup_reservations.handle
         (update_booking booked_9_to_11 1
            (fun row =>
               {| id := id row; user := user row; vehicle := vehicle row;
                  location := location row; slot := slot row;
                  status := STATUS_PENDING_PAYMENT;
                  entry_datetime_expected := entry_datetime_expected row;
                  exit_datetime_expected := exit_datetime_expected row;
                  actual_entry_datetime := actual_entry_datetime row;
                  actual_exit_datetime := actual_exit_datetime row;
                  duration_hours_booked := duration_hours_booked row;
                  amount_expected := amount_expected row;
                  amount_paid := 0;
                  reservation_expires_at := Some (at_clock 0 0 10) |}))
         (at_clock (monday + 1) 0 0)).

(** Alice's booking of 09:00 to 11:00 as a request that stopped between
    the reservation and the payment would leave it: waiting for its
    payment, the reservation expiring ten minutes after midnight. *)
Definition left_unpaid : DB :=
  update_booking booked_9_to_11 1
    (fun row =>
       {| id := id row; user := user row; vehicle := vehicle row;
          location := location row; slot := slot row;
          status := STATUS_PENDING_PAYMENT;
          entry_datetime_expected := entry_datetime_expected row;
          exit_datetime_expected := exit_datetime_expected row;
          actual_entry_datetime := actual_entry_datetime row;
          actual_exit_datetime := actual_exit_datetime row;
          duration_hours_booked := duration_hours_booked row;
          amount_expected := amount_expected row;
          amount_paid := 0;
          reservation_expires_at := Some (at_clock 0 0 10) |}).

(** The unpaid booking, scanned in at 08:50 on Monday and cancelled by the
    expiry sweep of 08:55. *)
Definition scanned_in_then_reclaimed : DB :=
  run [ OpScan POST (Some 1) (at_clock monday 8 50);
        OpExpirySweep (at_clock monday 8 55) ]
      left_unpaid.

(** An overtime sweep and a cancellation request, no scan. *)
Definition no_scan : list Op :=
  [ OpOvertimeSweep (at_clock 9 0 0); OpCancel alice POST 1 0 ].

End Scenario.

(** ** Vocabulary of the statements *)

(** A pricing rule the source reads for a booking: it names this very
    location and this very weekday, and its window holds the clock time. *)
Definition scoped_rule_matches (location_ : Z) (at_ : datetime)
    (r : DynamicPricingRule) : Prop :=
  rule_location r = Some location_
  /\ day_of_week r = Some (weekday at_)
  /\ start_time r <= time_of at_ <= end_time r.

(** The payment rows an operation appends are the rows of the table after
    it, past the rows that were there before. *)
Definition payments_added (before after : DB) (new : list Payment) : Prop :=
  payments after = payments before ++ new.

(** A cancellation policy that the query of [cancel_booking] keeps: scoped
    to this location or to none, with a threshold of at most the minutes
    left before the start. *)
Definition policy_in_scope (location_ : Z) (p : CancellationPolicy) : Prop :=
  policy_location p = Some location_ \/ policy_location p = None.

Definition policy_matches (location_ : Z) (minutes_before : Q)
    (p : CancellationPolicy) : Prop :=
  policy_in_scope location_ p
  /\ (inject_Z (min_minutes_before_start p) <= minutes_before)%Q.

(** Policies graded for a location: among the policies in scope, a
    threshold at least as large never carries a smaller percentage, and no
    percentage is negative. *)
Definition graded_policies (db : DB) (location_ : Z) : Prop :=
  forall p, In p (cancellation_policies db) -> policy_in_scope location_ p ->
    (0 <= refund_percentage p)%Q
    /\ forall q, In q (cancellation_policies db) -> policy_in_scope location_ q ->
         min_minutes_before_start p <= min_minutes_before_start q ->
         (refund_percentage p <= refund_percentage q)%Q.

(** The unpaid fines of the booking with key [k]. *)
Definition unpaid_fine_of (k : Z) (f : Fine) : bool :=
  (fine_booking f =? k) && fine_status_eqb (fine_status f) FINE_UNPAID.

Definition unpaid_fines (db : DB) (k : Z) : list Fine :=
  filter (unpaid_fine_of k) (fines db).

Definition at_most_one_unpaid_fine (db : DB) : Prop :=
  forall k, (length (unpaid_fines db k) <= 1)%nat.

(** The fine the overtime sweep writes for a booking: flat, the hourly
    rate of the booking's location. *)
Definition overtime_fine (db : DB) (b : Booking) : Fine :=
  {| fine_booking := id b;
     fine_amount := match get_location db (location b) with
                    | Some loc => base_rate_per_hour loc
                    | None => 0%Q
                    end;
     fine_status := FINE_UNPAID |}.

(** A booking the overtime sweep has to fine at [now]: confirmed, past its
    expected exit, and without an unpaid fine. *)
Definition due_for_fine (db : DB) (now : datetime) (b : Booking) : bool :=
  process_parking_automation.overtime now b
  && negb (process_parking_automation.has_unpaid_fine db b).

(** Keys are unique, and every booking refers to a location that exists. *)
Definition unique_booking_ids (db : DB) : Prop := NoDup (map id (bookings db)).

Definition locations_present (db : DB) : Prop :=
  forall b, In b (bookings db) -> get_location db (location b) <> None.

(** The half-open windows [[entry, exit)] of two bookings share an
    instant. *)
Definition windows_intersect (a b : Booking) : Prop :=
  exists t,
    entry_datetime_expected a <= t < exit_datetime_expected a
    /\ entry_datetime_expected b <= t < exit_datetime_expected b.

(** No two distinct confirmed bookings of one slot have intersecting
    windows. *)
Definition no_double_booking_rows (bs : list Booking) : Prop :=
  forall a b, In a bs -> In b bs -> id a <> id b ->
    status a = STATUS_CONFIRMED -> status b = STATUS_CONFIRMED ->
    slot a = slot b -> ~ windows_intersect a b.

Definition no_double_booking (db : DB) : Prop :=
  no_double_booking_rows (bookings db).

(** The booking table is well formed: keys are unique and were handed out
    by the sequence, and a confirmed booking ends after it starts. *)
Definition well_formed_rows (bs : list Booking) (seq : Z) : Prop :=
  NoDup (map id bs)
  /\ (forall b, In b bs -> id b <= seq)
  /\ (forall b, In b bs -> status b = STATUS_CONFIRMED ->
        entry_datetime_expected b < exit_datetime_expected b).

Definition well_formed (db : DB) : Prop :=
  well_formed_rows (bookings db) (booking_seq db).

(** The overlap test of the views, as a proposition: a confirmed booking
    of the slot that starts before the window ends and ends after the
    window starts. *)
Definition conflicts_with (slot_ : Z) (window_start window_end : datetime)
    (b : Booking) : Prop :=
  slot b = slot_ /\ status b = STATUS_CONFIRMED
  /\ entry_datetime_expected b < window_end
  /\ exit_datetime_expected b > window_start.

(** A write that keeps the key, the slot and the window of a row and never
    makes a row confirmed. *)
Definition quiet (write : Booking -> Booking) : Prop :=
  forall r,
    id (write r) = id r /\ slot (write r) = slot r
    /\ entry_datetime_expected (write r) = entry_datetime_expected r
    /\ exit_datetime_expected (write r) = exit_datetime_expected r
    /\ (status (write r) = STATUS_CONFIRMED -> status r = STATUS_CONFIRMED).

Definition rows_invariant (bs : list Booking) (seq : Z) : Prop :=
  well_formed_rows bs seq /\ no_double_booking_rows bs.

Definition booking_invariant (db : DB) : Prop :=
  rows_invariant (bookings db) (booking_seq db).

(** Every row of [bs] with the status [st] is still there, under its key
    and with that status, in [bs']. *)
Definition rows_keep (st : BookingStatus) (bs bs' : list Booking) : Prop :=
  forall b, In b bs -> status b = st ->
    exists b', In b' bs' /\ id b' = id b /\ status b' = st.

Definition status_kept (st : BookingStatus) (before after : DB) : Prop :=
  rows_keep st (bookings before) (bookings after).

Definition is_scan (op : Op) : bool :=
  match op with
  | OpScan _ _ _ => true
  | _ => false
  end.

(** ** Vocabulary of the further properties *)

(** A table that has only grown at its end. *)
Definition appended {A : Type} (before after : list A) : Prop :=
  exists new, after = before ++ new.

(** A response that refuses the request: not found, the page shown again,
    or an error message. *)
Definition refusal (r : Response) : Prop :=
  match r with
  | Http404 | Render | Redirect ERROR _ => True
  | _ => False
  end.

(** Every booking is confirmed, cancelled or completed, and holds no
    reservation. *)
Definition settled (db : DB) : Prop :=
  forall b, In b (bookings db) ->
    (status b = STATUS_CONFIRMED \/ status b = STATUS_CANCELLED
     \/ status b = STATUS_COMPLETED)
    /\ reservation_expires_at b = None.

(** Every confirmed booking has paid exactly what is expected of it. *)
Definition confirmed_are_paid (db : DB) : Prop :=
  forall b, In b (bookings db) -> status b = STATUS_CONFIRMED ->
    amount_paid b = amount_expected b.

(** The tables the operations only read. *)
Definition same_configuration (before after : DB) : Prop :=
  vehicles after = vehicles before
  /\ locations after = locations before
  /\ slots after = slots before
  /\ pricing_rules after = pricing_rules before
  /\ cancellation_policies after = cancellation_policies before.

(** The tables the operations write: rows are added at the end, and no
    booking key is dropped or changed. *)
Definition only_grown (before after : DB) : Prop :=
  appended (map id (bookings before)) (map id (bookings after))
  /\ appended (payments before) (payments after)
  /\ appended (extensions before) (extensions after)
  /\ appended (fines before) (fines after)
  /\ appended (notifications before) (notifications after)
  /\ appended (entry_exit_logs before) (entry_exit_logs after).

(** The scan columns of every booking agree with its status: an exit is
    recorded only after an entry, and a booking is completed exactly when
    its exit is recorded. *)
Definition scans_consistent (db : DB) : Prop :=
  forall b, In b (bookings db) ->
    (actual_exit_datetime b <> None -> actual_entry_datetime b <> None)
    /\ (status b = STATUS_COMPLETED <-> actual_exit_datetime b <> None).

(** The notifications of the automation command. *)
Definition expiry_reminder (b : Booking) : NotificationLog :=
  {| notification_user := user b;
     notification_type := TYPE_EXPIRY_REMINDER;
     notification_channel := CHANNEL_EMAIL |}.

Definition fine_alert (b : Booking) : NotificationLog :=
  {| notification_user := user b;
     notification_type := TYPE_FINE_ALERT;
     notification_channel := CHANNEL_EMAIL |}.

(** A rule of the car park for Monday nights, from 22:00 to 02:00. *)
Definition night_rule : DynamicPricingRule :=
  {| rule_location := Some 1; day_of_week := Some 0;
     start_time := 22 * us_per_hour; end_time := 2 * us_per_hour;
     multiplier := 2 |}.

(** The car park with Alice's bookings of slot 1 from 09:00 to 11:00 and
    from 11:00 to 12:00. *)
Definition two_bookings : DB :=
  run (firstn 2 Scenario.busy_morning) Scenario.empty.


(** ** Slot maintenance and the live view of a location

    [MaintenanceSlotLog] of core/models.py, the two actions of
    [ParkingSlotAdmin] in core/admin.py and [location_detail] of
    core/views.py.  The maintenance log is kept beside the tables of the
    booking flow, which never read it. *)

Record MaintenanceSlotLog := {
  maintenance_slot : Z;
  start_datetime : datetime;
  end_datetime : option datetime
}.

Record Site := {
  tables : DB;
  maintenance_logs : list MaintenanceSlotLog
}.

Definition with_slots (db : DB) (ss : list ParkingSlot) : DB :=
  {| vehicles := vehicles db; locations := locations db; slots := ss;
     pricing_rules := pricing_rules db;
     cancellation_policies := cancellation_policies db;
     bookings := bookings db; booking_seq := booking_seq db;
     payments := payments db; extensions := extensions db;
     fines := fines db; notifications := notifications db;
     entry_exit_logs := entry_exit_logs db |}.

Definition set_slot_status (st : SlotStatus) (s : ParkingSlot) : ParkingSlot :=
  {| slot_id := slot_id s; slot_location := slot_location s;
     slot_status := st |}.

Definition slot_status_eqb (a b : SlotStatus) : bool :=
  match a, b with
  | STATUS_AVAILABLE, STATUS_AVAILABLE
  | STATUS_BOOKED, STATUS_BOOKED
  | STATUS_MAINTENANCE, STATUS_MAINTENANCE
  | STATUS_TEMP_BLOCKED, STATUS_TEMP_BLOCKED => true
  | _, _ => false
  end.

Module ParkingSlotAdmin.

(** The rows the staff member ticked in the change list. *)
Definition queryset (site : Site) (selected : list Z) : list ParkingSlot :=
  filter (fun s => existsb (Z.eqb (slot_id s)) selected)
         (slots (tables site)).

(** Body of the loop of [mark_as_maintenance]: an open log row, then
    [slot.save(update_fields=["status"])]. *)
Definition mark (now : datetime) (site : Site) (slot_ : ParkingSlot) : Site :=
  {| tables :=
       with_slots (tables site)
         (map (fun s => if slot_id s =? slot_id slot_
                        then set_slot_status STATUS_MAINTENANCE s else s)
              (slots (tables site)));
     maintenance_logs :=
       maintenance_logs site
       ++ [ {| maintenance_slot := slot_id slot_; start_datetime := now;
               end_datetime := None |} ] |}.

Definition mark_as_maintenance (site : Site) (selected : list Z)
    (now : datetime) : Site :=
  fold_left (mark now) (queryset site selected) site.

(** [queryset.update(status=STATUS_AVAILABLE)] *)
Definition mark_as_available (site : Site) (selected : list Z) : Site :=
  {| tables :=
       with_slots (tables site)
         (map (fun s => if existsb (Z.eqb (slot_id s)) selected
                        then set_slot_status STATUS_AVAILABLE s else s)
              (slots (tables site)));
     maintenance_logs := maintenance_logs site |}.

End ParkingSlotAdmin.

(** [MaintenanceSlotLog.objects.filter(slot=slot, start_datetime__lte=now)
      .filter(Q(end_datetime__isnull=True) | Q(end_datetime__gte=now))] *)
Definition under_maintenance (now : datetime) (slot_ : ParkingSlot)
    (l : MaintenanceSlotLog) : bool :=
  (maintenance_slot l =? slot_id slot_) && (start_datetime l <=? now)
  && match end_datetime l with
     | None => true
     | Some e => e >=? now
     end.

(** [Booking.objects.filter(slot=slot, status=STATUS_CONFIRMED,
      entry_datetime_expected__lte=now, exit_datetime_expected__gte=now)] *)
Definition active_booking (now : datetime) (slot_ : ParkingSlot)
    (b : Booking) : bool :=
  (slot b =? slot_id slot_)
  && booking_status_eqb (status b) STATUS_CONFIRMED
  && (entry_datetime_expected b <=? now)
  && (exit_datetime_expected b >=? now).

(** Body of the loop of [location_detail]: the status shown for a slot. *)
Definition current_status (site : Site) (now : datetime)
    (slot_ : ParkingSlot) : SlotStatus :=
  let has_maintenance :=
    existsb (under_maintenance now slot_) (maintenance_logs site) in
  if has_maintenance then STATUS_MAINTENANCE
  else
    let has_active_booking :=
      existsb (active_booking now slot_) (bookings (tables site)) in
    if has_active_booking then STATUS_BOOKED else STATUS_AVAILABLE.

(** The slots of the page with the status shown for each, [None] for the
    404 page.  The rows are listed in table order; the view sorts them by
    their code, a column the model does not carry. *)
Definition location_detail (site : Site) (location_id_ : Z) (now : datetime)
  : option (list (ParkingSlot * SlotStatus)) :=
  match get_active_location (tables site) location_id_ with
  | None => None
  | Some loc =>
    let slots_ :=
      filter (fun s => slot_location s =? location_id loc)
             (slots (tables site)) in
    Some (map (fun s => (s, current_status site now s)) slots_)
  end.

(** ** The scalar figures of [admin_dashboard] in core/views.py *)

Module admin_dashboard.

(** [aggregate(total=Sum(...))["total"]]: NULL over no row. *)
Definition aggregate_Sum (amounts : list Q) : option Q :=
  match amounts with
  | [] => None
  | a :: rest => Some (fold_left Qplus rest a)
  end.

(** [total or 0] *)
Definition or_0 (total : option Q) : Q :=
  match total with
  | Some t => t
  | None => 0
  end.

Definition payment_is (st : PaymentStatus) (p : Payment) : bool :=
  match payment_status p, st with
  | PAY_INITIATED, PAY_INITIATED | PAY_SUCCESS, PAY_SUCCESS
  | PAY_FAILED, PAY_FAILED | PAY_REFUNDED, PAY_REFUNDED
  | PAY_PARTIAL_REFUND, PAY_PARTIAL_REFUND => true
  | _, _ => false
  end.

Definition total_bookings (db : DB) : nat := length (bookings db).

Definition total_revenue (db : DB) : Q :=
  or_0 (aggregate_Sum
          (map payment_amount (filter (payment_is PAY_SUCCESS) (payments db)))).

Definition active_locations (db : DB) : nat :=
  length (filter is_active (locations db)).

Definition active_slots (db : DB) : nat :=
  length (filter (fun s => slot_status_eqb (slot_status s) STATUS_AVAILABLE)
                 (slots db)).

Definition total_unpaid_fines (db : DB) : Q :=
  or_0 (aggregate_Sum
          (map fine_amount
               (filter (fun f => fine_status_eqb (fine_status f) FINE_UNPAID)
                       (fines db)))).

End admin_dashboard.

(** ** [UserRegistrationForm.clean_aadhaar] in core/forms.py

    A string is a list of characters; the section is over the character
    type, the whitespace test of [str.strip] and the two characters of the
    mask. *)

Section Aadhaar.

Variable char : Type.
Variable isspace : char -> bool.
Variables X dash : char.

Fixpoint lstrip (s : list char) : list char :=
  match s with
  | [] => []
  | c :: rest => if isspace c then lstrip rest else s
  end.

Definition strip (s : list char) : list char :=
  rev (lstrip (rev (lstrip s))).

(** [s[-4:]] *)
Definition last4 (s : list char) : list char := skipn (length s - 4) s.

(** ["XXXX-XXXX-"] *)
Definition mask : list char := [X; X; X; X; dash; X; X; X; X; dash].

Definition clean_aadhaar (aadhaar : list char) : list char :=
  let aadhaar := strip aadhaar in
  match aadhaar with
  | [] => []
  | _ => mask ++ last4 aadhaar
  end.

End Aadhaar.

(** The site of the car park, without any maintenance so far. *)
Definition car_park_site (db : DB) : Site :=
  {| tables := db; maintenance_logs := [] |}.

Arguments lstrip {char} isspace s.
Arguments strip {char} isspace s.
Arguments last4 {char} s.
Arguments mask {char} X dash.
Arguments clean_aadhaar {char} isspace X dash aadhaar.

(** The columns of a slot that identify it. *)
Definition slot_key (s : ParkingSlot) : Z * Z := (slot_id s, slot_location s).

(** The operations that charge the user. *)
Definition takes_payment (o : Op) : bool :=
  match o with
  | OpCreate _ _ _ _ _ _ _ | OpExtend _ _ _ _ => true
  | _ => false
  end.

(** Code points: a space, a digit, the letters of the mask. *)
Definition ascii_space (c : Z) : bool := c =? 32.

(** ** [dashboard] in core/views.py *)

(** [.order_by("-entry_datetime_expected")]: rows with equal entries keep
    their storage order. *)
Fixpoint insert_by_entry (b : Booking) (l : list Booking) : list Booking :=
  match l with
  | [] => [b]
  | c :: rest =>
    if entry_datetime_expected b <? entry_datetime_expected c
    then c :: insert_by_entry b rest
    else b :: c :: rest
  end.

Definition order_by_entry_desc (l : list Booking) : list Booking :=
  fold_right insert_by_entry [] l.

Module dashboard.

(** [filter(user=request.user, status__in=statuses)] *)
Definition of_user_in (request_user : Z) (statuses : list BookingStatus)
    (b : Booking) : bool :=
  (user b =? request_user) && existsb (booking_status_eqb (status b)) statuses.

Definition active_bookings (db : DB) (request_user : Z) : list Booking :=
  order_by_entry_desc
    (filter (of_user_in request_user [STATUS_CONFIRMED]) (bookings db)).

Definition past_bookings (db : DB) (request_user : Z) : list Booking :=
  firstn 10
    (order_by_entry_desc
       (filter (of_user_in request_user [STATUS_COMPLETED; STATUS_CANCELLED])
               (bookings db))).

End dashboard.

(** A list of bookings with the latest expected entry first. *)
Fixpoint newest_first (l : list Booking) : Prop :=
  match l with
  | [] => True
  | b :: rest =>
    (forall c, In c rest ->
       entry_datetime_expected c <= entry_datetime_expected b)
    /\ newest_first rest
  end.
(** * Properties *)

(** ** Rounding *)

Lemma Qfloor_unique (x : Q) (n : Z) :
  (inject_Z n <= x)%Q -> (x < inject_Z (n + 1))%Q -> Qfloor x = n.
Proof.
  intros Hlo Hhi.
  pose proof (Qfloor_le x) as H1.
  pose proof (Qlt_floor x) as H2.
  assert (Qfloor x < n + 1).
  { rewrite Zlt_Qlt. eapply Qle_lt_trans; eauto. }
  assert (n < Qfloor x + 1).
  { rewrite Zlt_Qlt. eapply Qle_lt_trans; eauto. }
  lia.
Qed.

(** Anything from 0 to one half rounds to 0: one half is a tie, and the
    tie goes to the even neighbour. *)
Lemma round_up_to_half (x : Q) :
  (0 <= x)%Q -> (x <= 1 # 2)%Q -> Py.round x = 0.
Proof.
  intros H0 H1. unfold Py.round.
  assert (Hf : Qfloor x = 0).
  { apply Qfloor_unique; simpl; [exact H0 | ].
    eapply Qle_lt_trans; [exact H1 | reflexivity]. }
  rewrite Hf. simpl Z.even.
  destruct (x - inject_Z 0 ?= 1 # 2)%Q eqn:E; try reflexivity.
  apply Qgt_alt in E. exfalso. unfold inject_Z in E. lra.
Qed.

(** ** Pricing *)

(** From 8 up to 12 booked hours the day count rounds to 0 and the fee is
    nothing: [days] is not zero, so the [or 1] of the source does not
    apply, and [round(days)] is 0. *)
Lemma booking_fee_8_to_12_hours (loc : ParkingLocation) (d m : Q) :
  (8 <= d)%Q -> (d <= 12)%Q -> (booking_fee loc d m == 0)%Q.
Proof.
  intros H8 H12. unfold booking_fee.
  apply Qle_bool_iff in H8. rewrite H8.
  apply Qle_bool_iff in H8.
  destruct (Qeq_bool (d / 24) 0) eqn:E.
  - apply Qeq_bool_iff in E. exfalso.
    assert (Hd : (d == d / 24 * 24)%Q) by field.
    rewrite E in Hd. lra.
  - assert (Hr : Py.round (d / 24) = 0).
    { apply round_up_to_half.
      - apply Qle_shift_div_l; lra.
      - apply Qle_shift_div_r; lra. }
    rewrite Hr. unfold inject_Z. ring.
Qed.

Lemma booking_fee_8_to_12_hours_witness :
  (booking_fee Scenario.car_park 10 1.5 == 0)%Q.
Proof.
  apply booking_fee_8_to_12_hours.
  - vm_compute. discriminate.
  - vm_compute. discriminate.
Defined.

(** C2 (the fee of a booking of 8 hours or more is the daily rate times
    the rounded day count, at least one day; 08:00 to 18:00 at 100 an hour
    and 600 a day costs 600.00).  The source computes
    [days = (duration / 24) or 1] and then [round(days)]: for the 10-hour
    booking [days] is 10/24, not zero, and it rounds to 0.  The booking is
    confirmed with an expected and a paid amount of 0, not 600. *)
Example C2_ten_hour_booking_is_charged_nothing :
  let db' := snd (Scenario.book Scenario.empty 1 8 0 18 0) in
  exists b,
    bookings db' = [b]
    /\ status b = STATUS_CONFIRMED
    /\ (duration_hours_booked b == 10)%Q
    /\ (amount_expected b == 0)%Q
    /\ (amount_paid b == 0)%Q
    /\ ~ (amount_expected b == 600)%Q.
Proof.
  vm_compute. eexists. split; [reflexivity | ].
  repeat split; try reflexivity; discriminate.
Qed.

Lemma col_eqb_true (c : option Z) (v : Z) : col_eqb c v = true <-> c = Some v.
Proof.
  destruct c as [x|]; simpl.
  - rewrite Z.eqb_eq. split; congruence.
  - split; discriminate.
Qed.

Lemma py_max_cases (a b : Q) :
  (a <= Py.max a b)%Q /\ (b <= Py.max a b)%Q
  /\ (Py.max a b = a \/ Py.max a b = b).
Proof.
  unfold Py.max. destruct (Qle_bool b a) eqn:E.
  - apply Qle_bool_iff in E. repeat split; auto. lra.
  - assert (~ (b <= a)%Q) by (rewrite <- Qle_bool_iff; congruence).
    repeat split; auto; lra.
Qed.

Lemma multiplier_loop_is_max (t : time) (rules : list DynamicPricingRule) (m0 : Q) :
  let step m rule :=
    if (start_time rule <=? t) && (t <=? end_time rule)
    then Py.max m (multiplier rule) else m in
  let m := fold_left step rules m0 in
  (m0 <= m)%Q
  /\ (forall r, In r rules -> start_time r <= t <= end_time r ->
                (multiplier r <= m)%Q)
  /\ (m = m0 \/ exists r, In r rules /\ start_time r <= t <= end_time r
                          /\ m = multiplier r).
Proof.
  intros step. revert m0. induction rules as [|r rules IH]; intros m0; simpl.
  - repeat split; try lra; auto. intros r [].
  - destruct (IH (step m0 r)) as (Hge & Hall & Hwit).
    assert (Hstep : (m0 <= step m0 r)%Q).
    { unfold step. destruct (_ && _); [apply py_max_cases | lra]. }
    split; [lra | split].
    + intros r' [-> | Hin] Hw; [ | now apply Hall].
      assert (Hr : (multiplier r' <= step m0 r')%Q).
      { unfold step.
        replace ((start_time r' <=? t) && (t <=? end_time r')) with true
          by (symmetry; apply andb_true_iff; split; apply Z.leb_le; lia).
        apply py_max_cases. }
      lra.
    + destruct Hwit as [Heq | (r' & Hin & Hw & Heq)].
      * rewrite Heq.
        assert (Hs : step m0 r = m0
                     \/ (start_time r <= t <= end_time r
                         /\ step m0 r = multiplier r)).
        { unfold step.
          destruct ((start_time r <=? t) && (t <=? end_time r)) eqn:E;
            [ | now left].
          apply andb_true_iff in E. rewrite !Z.leb_le in E.
          destruct (py_max_cases m0 (multiplier r)) as (_ & _ & [Hm | Hm]);
            [now left | right; split; [lia | exact Hm]]. }
        destruct Hs as [Hs | (Hw & Hs)]; [now left | right].
        exists r. auto.
      * right. exists r'. auto.
Qed.

(** The multiplier of the source is the largest of 1.0 and the multipliers
    of the rules that name this very location and this very weekday and
    whose window holds the clock time: it is at least 1.0, at least the
    multiplier of every such rule, and it is 1.0 or the multiplier of one
    of them. *)
Lemma pricing_multiplier_is_max_of_scoped_rules (db : DB) (location_ : Z)
    (at_ : datetime) :
  let m := pricing_multiplier db location_ at_ in
  (1 <= m)%Q
  /\ (forall r, In r (pricing_rules db) -> scoped_rule_matches location_ at_ r ->
                (multiplier r <= m)%Q)
  /\ (m = 1%Q \/ exists r, In r (pricing_rules db)
                           /\ scoped_rule_matches location_ at_ r
                           /\ m = multiplier r).
Proof.
  unfold pricing_multiplier.
  destruct (multiplier_loop_is_max (time_of at_)
              (rules_for db location_ at_) 1%Q) as (H1 & Hall & Hwit).
  cbv zeta in *. split; [exact H1 | split].
  - intros r Hin (Hl & Hd & Hw). apply Hall; [ | exact Hw].
    unfold rules_for. apply filter_In. split; [exact Hin | ].
    apply andb_true_iff. split; now apply col_eqb_true.
  - destruct Hwit as [Heq | (r & Hin & Hw & Heq)]; [now left | right].
    exists r. unfold rules_for in Hin. apply filter_In in Hin.
    destruct Hin as (Hin & Hsc). apply andb_true_iff in Hsc.
    rewrite !col_eqb_true in Hsc. unfold scoped_rule_matches. tauto.
Qed.

(** C3 (the multiplier is the largest of 1.0 and the multipliers of the
    matching rules, where a global rule and a rule for any day match too).
    The source filters the rules on [location=location] and
    [day_of_week=entry.weekday()], so a rule without a location or without
    a day is never read: with only such a rule in force on Monday
    09:00-12:00 the multiplier at Monday 09:30 stays 1.0 where the design
    document gives 1.5, and the hour 09:30-10:30 is charged 100, not 150.
    A rule that names the location and the day is applied. *)
Example C3_global_and_any_day_rules_are_ignored :
  let e := Scenario.at_clock Scenario.monday 9 30 in
  let priced rules :=
    map amount_expected
        (bookings (snd (Scenario.book (Scenario.with_rules Scenario.empty rules)
                                      1 9 30 10 30))) in
  ((pricing_multiplier (Scenario.with_rules Scenario.empty [Scenario.global_rule]) 1 e == 1)%Q
   /\ (spec_multiplier (Scenario.with_rules Scenario.empty [Scenario.global_rule]) 1 e == 1.5)%Q
   /\ Forall2 Qeq (priced [Scenario.global_rule]) [100%Q])
  /\ ((pricing_multiplier (Scenario.with_rules Scenario.empty [Scenario.any_day_rule]) 1 e == 1)%Q
      /\ (spec_multiplier (Scenario.with_rules Scenario.empty [Scenario.any_day_rule]) 1 e == 1.5)%Q
      /\ Forall2 Qeq (priced [Scenario.any_day_rule]) [100%Q])
  /\ ((pricing_multiplier (Scenario.with_rules Scenario.empty [Scenario.monday_rule]) 1 e == 1.5)%Q
      /\ Forall2 Qeq (priced [Scenario.monday_rule]) [150%Q]).
Proof.
  vm_compute. repeat split; repeat constructor.
Qed.

(** At 100 an hour and 600 a day without rules, 09:00 to 11:00 is two
    hours for 200.00; with the Monday 09:00-12:00 rule of 1.5, the hour
    09:30 to 10:30 is 150.00; 08:00 to 08:00 of the next day is one day,
    600.00. *)
Example worked_prices :
  let booked db h1 m1 d2 h2 m2 :=
    bookings
      (snd (create_booking db Scenario.alice POST 1 1
              (Some (Scenario.at_clock Scenario.monday h1 m1))
              (Some (Scenario.at_clock (Scenario.monday + d2) h2 m2))
              (Scenario.at_clock 0 0 0))) in
  let peak := Scenario.with_rules Scenario.empty [Scenario.monday_rule] in
  (Forall2 Qeq (map duration_hours_booked (booked Scenario.empty 9 0 0 11 0)) [2%Q]
   /\ Forall2 Qeq (map amount_expected (booked Scenario.empty 9 0 0 11 0)) [200%Q])
  /\ Forall2 Qeq (map amount_expected (booked peak 9 30 0 10 30)) [150%Q]
  /\ Forall2 Qeq (map amount_expected (booked Scenario.empty 8 0 1 8 0)) [600%Q].
Proof.
  vm_compute. repeat split; repeat constructor.
Qed.

(** ** Cancellation: the start-time guard *)

(** C9: cancelling a confirmed booking at or after its expected entry is
    refused with the "only before the start time" error and leaves the
    database as it was: no booking column changes and no payment row is
    written, whatever the request method. *)
Theorem C9_cancel_at_or_after_start_is_rejected
    (db : DB) (request_user : Z) (method : Method) (booking_id : Z)
    (now : datetime) (booking : Booking) :
  get_confirmed_booking db booking_id request_user = Some booking ->
  entry_datetime_expected booking <= now ->
  cancel_booking db request_user method booking_id now
  = (Redirect ERROR MsgOnlyCancelBeforeStart, db).
Proof.
  intros Hget Hstarted. unfold cancel_booking. rewrite Hget.
  apply Z.leb_le in Hstarted. rewrite Hstarted. reflexivity.
Qed.

Lemma C9_cancel_at_start_witness :
  cancel_booking Scenario.booked_9_to_11 Scenario.alice POST 1
                 (Scenario.at_clock Scenario.monday 9 0)
  = (Redirect ERROR MsgOnlyCancelBeforeStart, Scenario.booked_9_to_11).
Proof.
  eapply C9_cancel_at_or_after_start_is_rejected.
  - vm_compute. reflexivity.
  - vm_compute. discriminate.
Defined.

(** ** What each operation leaves alone *)

Lemma payments_fold_update (f : Booking -> Booking) (l : list Booking) (db : DB) :
  payments (fold_left (fun db' b => update_booking db' (id b) f) l db)
  = payments db.
Proof.
  revert db. induction l as [|b l IH]; intros db; simpl; [reflexivity | ].
  now rewrite IH.
Qed.

Lemma payments_fold_remind (l : list Booking) (db : DB) :
  payments (fold_left process_parking_automation.remind l db) = payments db.
Proof.
  revert db. induction l as [|b l IH]; intros db; simpl; [reflexivity | ].
  now rewrite IH.
Qed.

Lemma payments_fine_overtime (l : list Booking) (db : DB) :
  payments (snd (process_parking_automation.fine_overtime l db)) = payments db.
Proof.
  revert db. induction l as [|b l IH]; intros db; simpl; [reflexivity | ].
  destruct (process_parking_automation.has_unpaid_fine db b); [apply IH | ].
  destruct (get_location db (location b)); [ | reflexivity].
  now rewrite IH.
Qed.

(** Splits on every test of a view, innermost test first, leaving one goal
    per path through it. *)
Ltac split_on scrutinee :=
  lazymatch scrutinee with
  | context [match _ with _ => _ end] => fail
  | _ => destruct scrutinee eqn:?
  end.

Ltac each_path :=
  unfold create_payment, insert_booking;
  repeat (cbn beta iota zeta;
          match goal with
          | |- context [match ?scrutinee with _ => _ end] => split_on scrutinee
          end).

(** Close a goal [exists new, payments_added db db' new /\ Forall P new] on
    one path: no row, or the one row the path writes. *)
Ltac no_row :=
  exists (@nil Payment); split; [symmetry; apply app_nil_r | constructor].
Ltac one_row :=
  eexists [_]; split; [reflexivity | repeat constructor; simpl; congruence].
Ltac added_rows := unfold payments_added; simpl; first [no_row | one_row].

(** [cancel_booking] multiplies the paid amount, a [decimal.Decimal], by a
    [float]: past the two guards it raises, whatever the method. *)
Lemma cancel_booking_before_start
    (db : DB) (request_user : Z) (method : Method) (booking_id : Z)
    (now : datetime) (booking : Booking) :
  get_confirmed_booking db booking_id request_user = Some booking ->
  now < entry_datetime_expected booking ->
  cancel_booking db request_user method booking_id now
  = (Raised TypeError, db).
Proof.
  intros Hget Hbefore. unfold cancel_booking. rewrite Hget.
  replace (entry_datetime_expected booking <=? now) with false
    by (symmetry; apply Z.leb_gt; exact Hbefore).
  reflexivity.
Qed.

Lemma cancel_booking_cases
    (db : DB) (request_user : Z) (method : Method) (booking_id : Z)
    (now : datetime) :
  cancel_booking db request_user method booking_id now = (Http404, db)
  \/ cancel_booking db request_user method booking_id now
     = (Redirect ERROR MsgOnlyCancelBeforeStart, db)
  \/ cancel_booking db request_user method booking_id now
     = (Raised TypeError, db).
Proof.
  unfold cancel_booking.
  destruct (get_confirmed_booking db booking_id request_user) as [booking|];
    [ | now left].
  destruct (entry_datetime_expected booking <=? now); [right; now left | ].
  right. right. reflexivity.
Qed.

Lemma cancel_booking_writes_nothing
    (db : DB) (request_user : Z) (method : Method) (booking_id : Z)
    (now : datetime) :
  snd (cancel_booking db request_user method booking_id now) = db.
Proof.
  destruct (cancel_booking_cases db request_user method booking_id now)
    as [-> | [-> | ->]]; reflexivity.
Qed.

(** [extend_booking] adds a [float] to the expected amount, a
    [decimal.Decimal], after it has written the payment and the extension:
    the booking table is as it was, whatever the request. *)
Lemma extend_booking_keeps_bookings
    (db : DB) (request_user : Z) (method : Method) (booking_id : Z)
    (new_exit_str : Posted) :
  bookings (snd (extend_booking db request_user method booking_id new_exit_str))
  = bookings db
  /\ booking_seq
       (snd (extend_booking db request_user method booking_id new_exit_str))
     = booking_seq db.
Proof.
  unfold extend_booking, save_extension, arith. each_path; split; reflexivity.
Qed.

Lemma cancel_booking_adds_refunded_rows
    (db : DB) (request_user : Z) (method : Method) (booking_id : Z)
    (now : datetime) :
  exists new,
    payments_added db (snd (cancel_booking db request_user method booking_id now)) new
    /\ Forall (fun p => payment_status p = PAY_REFUNDED) new.
Proof.
  rewrite cancel_booking_writes_nothing. added_rows.
Qed.

Lemma create_booking_adds_success_rows
    (db : DB) (request_user : Z) (method : Method) (location_id_ slot_id_ : Z)
    (form_entry form_exit : option datetime) (now : datetime) :
  exists new,
    payments_added db
      (snd (create_booking db request_user method location_id_ slot_id_
                           form_entry form_exit now)) new
    /\ Forall (fun p => payment_status p = PAY_SUCCESS) new.
Proof.
  unfold create_booking. each_path; added_rows.
Qed.

Lemma extend_booking_adds_success_rows
    (db : DB) (request_user : Z) (method : Method) (booking_id : Z)
    (new_exit_str : Posted) :
  exists new,
    payments_added db
      (snd (extend_booking db request_user method booking_id new_exit_str)) new
    /\ Forall (fun p => payment_status p = PAY_SUCCESS) new.
Proof.
  unfold extend_booking, save_extension, arith. each_path; added_rows.
Qed.

Lemma staff_scan_qr_payments (db : DB) (method : Method) (code : option Z)
    (now : datetime) :
  payments (snd (staff_scan_qr db method code now)) = payments db.
Proof.
  unfold staff_scan_qr. each_path; reflexivity.
Qed.

(** Lines 572 to 605 of [cancel_booking], run with any refundable amount:
    they write a payment row only for an amount above zero, one row, with
    the status REFUNDED and that amount. *)
Lemma refund_and_cancel_adds_refunded_rows
    (db : DB) (booking : Booking) (refundable_amount : number) :
  exists new,
    payments_added db (snd (refund_and_cancel db booking refundable_amount)) new
    /\ Forall (fun p => payment_status p = PAY_REFUNDED
                        /\ payment_amount p = value refundable_amount) new
    /\ (Qlt_bool 0 (value refundable_amount) = true -> length new = 1%nat)
    /\ (Qlt_bool 0 (value refundable_amount) = false -> new = []).
Proof.
  unfold refund_and_cancel, payments_added.
  destruct (Qlt_bool 0 (value refundable_amount)) eqn:Hpositive.
  - unfold create_payment. cbn beta iota zeta.
    eexists [_].
    destruct (arith Qminus (Decimal (amount_paid booking)) refundable_amount);
      simpl; (split; [reflexivity | ]);
      (split; [repeat constructor | split; [reflexivity | discriminate]]).
  - exists []. simpl. rewrite app_nil_r.
    split; [reflexivity | split; [constructor | split; [discriminate | reflexivity]]].
Qed.

(** C10: every payment row that a cancellation writes has the status
    REFUNDED, and no operation of the core (create, extend, cancel, scan,
    expiry sweep, overtime sweep) ever writes a row with the status
    PARTIAL_REFUND.  The lines that write the refund (572 to 580) give the
    row the status REFUNDED for every refundable amount, a part of the paid
    amount included; as the view stands they are not reached, the product
    two lines above them raising [TypeError], so that a cancellation writes
    no payment row at all. *)
Theorem C10_refund_rows_are_REFUNDED_never_PARTIAL_REFUND :
  (forall db request_user method booking_id now,
      exists new,
        payments_added db
          (snd (cancel_booking db request_user method booking_id now)) new
        /\ Forall (fun p => payment_status p = PAY_REFUNDED) new)
  /\ (forall db op,
         exists new,
           payments_added db (apply_op db op) new
           /\ Forall (fun p => payment_status p <> PAY_PARTIAL_REFUND) new)
  /\ (forall db booking refundable_amount,
         exists new,
           payments_added db
             (snd (refund_and_cancel db booking refundable_amount)) new
           /\ Forall (fun p => payment_status p = PAY_REFUNDED
                               /\ payment_amount p = value refundable_amount)
                     new
           /\ (Qlt_bool 0 (value refundable_amount) = true ->
               length new = 1%nat)
           /\ (Qlt_bool 0 (value refundable_amount) = false -> new = []))
  /\ (forall db request_user method booking_id now,
         payments (snd (cancel_booking db request_user method booking_id now))
         = payments db).
Proof.
  split; [exact cancel_booking_adds_refunded_rows | split; [ | split]].
  - intros db op.
    assert (Hweaken : forall st db',
               st <> PAY_PARTIAL_REFUND ->
               (exists new, payments_added db db' new
                            /\ Forall (fun p => payment_status p = st) new) ->
               exists new, payments_added db db' new
                           /\ Forall (fun p => payment_status p
                                               <> PAY_PARTIAL_REFUND) new).
    { intros st db' Hst (new & Hadd & Hall). exists new. split; [exact Hadd | ].
      eapply Forall_impl; [ | exact Hall]. simpl. intros p Hp. congruence. }
    assert (Hnone : forall db',
               payments db' = payments db ->
               exists new, payments_added db db' new
                           /\ Forall (fun p => payment_status p
                                               <> PAY_PARTIAL_REFUND) new).
    { intros db' Heq. exists []. unfold payments_added. rewrite Heq.
      split; [symmetry; apply app_nil_r | constructor]. }
    destruct op; simpl.
    + apply (Hweaken PAY_SUCCESS); [discriminate | ].
      apply create_booking_adds_success_rows.
    + apply (Hweaken PAY_SUCCESS); [discriminate | ].
      apply extend_booking_adds_success_rows.
    + apply (Hweaken PAY_REFUNDED); [discriminate | ].
      apply cancel_booking_adds_refunded_rows.
    + apply Hnone. apply staff_scan_qr_payments.
    + apply Hnone. apply payments_fold_update.
    + apply Hnone. unfold process_parking_automation.handle.
      rewrite payments_fine_overtime. apply payments_fold_remind.
  - exact refund_and_cancel_adds_refunded_rows.
  - intros. now rewrite cancel_booking_writes_nothing.
Qed.

(** ** Refund policy resolution *)

Lemma policy_applies_iff (location_ : Z) (minutes_before : Q)
    (p : CancellationPolicy) :
  policy_applies location_ minutes_before p = true
  <-> policy_matches location_ minutes_before p.
Proof.
  unfold policy_applies, policy_matches, policy_in_scope.
  rewrite andb_true_iff, orb_true_iff, col_eqb_true, Qle_bool_iff.
  destruct (policy_location p); simpl; intuition congruence.
Qed.

(** The head of the ordered queryset is a row of the queryset with the
    largest threshold; the ordered queryset is empty only when the queryset
    is. *)
Lemma first_of_order_by_threshold_desc (l : list CancellationPolicy) :
  match hd_error (order_by_threshold_desc l) with
  | Some p =>
    In p l
    /\ forall q, In q l ->
         min_minutes_before_start q <= min_minutes_before_start p
  | None => l = []
  end.
Proof.
  induction l as [|a l IH]; simpl; [reflexivity | ].
  destruct (order_by_threshold_desc l) as [|h t]; simpl in *.
  - subst l. split; [now left | ]. intros q [-> | []]. lia.
  - destruct IH as (Hin & Hmax).
    destruct (min_minutes_before_start a <? min_minutes_before_start h) eqn:E;
      simpl.
    + apply Z.ltb_lt in E. split; [now right | ].
      intros q [-> | Hq]; [lia | now apply Hmax].
    + apply Z.ltb_ge in E. split; [now left | ].
      intros q [-> | Hq]; [lia | ]. specialize (Hmax q Hq). lia.
Qed.

Lemma best_policy_spec (db : DB) (location_ : Z) (minutes_before : Q) :
  match best_policy db location_ minutes_before with
  | Some p =>
    In p (cancellation_policies db)
    /\ policy_matches location_ minutes_before p
    /\ forall q, In q (cancellation_policies db) ->
         policy_matches location_ minutes_before q ->
         min_minutes_before_start q <= min_minutes_before_start p
  | None =>
    forall q, In q (cancellation_policies db) ->
      ~ policy_matches location_ minutes_before q
  end.
Proof.
  unfold best_policy.
  pose proof (first_of_order_by_threshold_desc
                (filter (policy_applies location_ minutes_before)
                        (cancellation_policies db))) as H.
  destruct (hd_error _) as [p|].
  - destruct H as (Hin & Hmax). apply filter_In in Hin.
    destruct Hin as (Hin & Happ). apply policy_applies_iff in Happ.
    split; [exact Hin | split; [exact Happ | ]].
    intros q Hq Hm. apply Hmax. apply filter_In.
    split; [exact Hq | now apply policy_applies_iff].
  - intros q Hq Hm. apply policy_applies_iff in Hm.
    assert (Hf : In q (filter (policy_applies location_ minutes_before)
                              (cancellation_policies db)))
      by (apply filter_In; auto).
    rewrite H in Hf. exact Hf.
Qed.

(** C4 (the refund percentage applied by a cancellation is that of the
    matching policy with the largest threshold; with a global policy of 60
    minutes and 50% and a policy of the location of 30 minutes and 20%,
    cancelling 45 minutes before the start yields 20%).  The query of
    [cancel_booking] resolves the percentage as claimed: it is the one of a
    policy with the largest threshold among the policies scoped to the
    booking's location or to none whose threshold is at most the minutes
    left, and 0 when no policy matches; in the scenario it is 20.  But no
    percentage is ever applied: the next line multiplies the paid amount, a
    [decimal.Decimal], by a [float] and raises [TypeError].  Alice's
    cancellation at 08:15 of the booking that starts at 09:00 is answered
    by the exception, and the booking stays CONFIRMED with its 200.00 paid
    and without any refund row. *)
Theorem C4_resolved_percentage_is_never_applied :
  (forall db location_ minutes_before,
      (exists p,
          best_policy db location_ minutes_before = Some p
          /\ In p (cancellation_policies db)
          /\ policy_matches location_ minutes_before p
          /\ (forall q, In q (cancellation_policies db) ->
                policy_matches location_ minutes_before q ->
                min_minutes_before_start q <= min_minutes_before_start p)
          /\ resolved_refund_percentage db location_ minutes_before
             = refund_percentage p)
      \/ ((forall q, In q (cancellation_policies db) ->
              ~ policy_matches location_ minutes_before q)
          /\ resolved_refund_percentage db location_ minutes_before = 0%Q))
  /\ (let db := Scenario.with_policies Scenario.booked_9_to_11
                  [Scenario.global_60_50; Scenario.local_30_20] in
      let now := Scenario.at_clock Scenario.monday 8 15 in
      Forall2 Qeq (map (fun b => minutes_before_start b now) (bookings db))
              [45%Q]
      /\ map location (bookings db) = [1]
      /\ ~ policy_matches 1 45 Scenario.global_60_50
      /\ policy_matches 1 45 Scenario.local_30_20
      /\ best_policy db 1 45 = Some Scenario.local_30_20
      /\ (resolved_refund_percentage db 1 45 == 20)%Q
      /\ cancel_booking db Scenario.alice POST 1 now = (Raised TypeError, db)
      /\ map status (bookings db) = [STATUS_CONFIRMED]
      /\ Forall2 Qeq (map amount_paid (bookings db)) [200%Q]
      /\ map payment_status (payments db) = [PAY_SUCCESS]).
Proof.
  split.
  - intros db location_ minutes_before.
    pose proof (best_policy_spec db location_ minutes_before) as H.
    unfold resolved_refund_percentage.
    destruct (best_policy db location_ minutes_before) as [p|].
    + left. exists p. intuition.
    + right. auto.
  - cbv zeta. split; [vm_compute; repeat constructor | ].
    split; [vm_compute; reflexivity | ].
    split; [intros (_ & H); vm_compute in H; now apply H | ].
    split; [split; [now left | vm_compute; discriminate] | ].
    split; [vm_compute; reflexivity | ].
    split; [vm_compute; reflexivity | ].
    split; [vm_compute; reflexivity | ].
    split; [vm_compute; reflexivity | ].
    split; [vm_compute; repeat constructor | vm_compute; reflexivity].
Qed.

(** C6 as stated fails: the query orders the matching policies by
    threshold, not by percentage.  With the global policies (0 minutes,
    100%) and (60 minutes, 50%), 30 minutes before the start the percentage
    is 100 and 90 minutes before the start it is 50. *)
Lemma C6_smaller_threshold_may_refund_more :
  let db := Scenario.with_policies Scenario.empty
              [Scenario.global_0_100; Scenario.global_60_50] in
  (0 <= 30)%Q /\ (30 <= 90)%Q
  /\ (resolved_refund_percentage db 1 30 == 100)%Q
  /\ (resolved_refund_percentage db 1 90 == 50)%Q
  /\ ~ (resolved_refund_percentage db 1 30
        <= resolved_refund_percentage db 1 90)%Q.
Proof.
  vm_compute. repeat split; try discriminate. intros H. now apply H.
Qed.

(** C6, amended: when the policies in scope for the location are graded (a
    threshold at least as large never carries a smaller percentage, and no
    percentage is negative), the resolved refund percentage does not
    increase as the minutes before the start decrease. *)
Theorem C6_refund_percentage_is_monotone_for_graded_policies
    (db : DB) (location_ : Z) (m1 m2 : Q) :
  graded_policies db location_ ->
  (0 <= m2)%Q -> (m2 <= m1)%Q ->
  (resolved_refund_percentage db location_ m2
   <= resolved_refund_percentage db location_ m1)%Q.
Proof.
  intros Hgraded H0 Hle.
  pose proof (best_policy_spec db location_ m1) as H1.
  pose proof (best_policy_spec db location_ m2) as H2.
  unfold resolved_refund_percentage.
  destruct (best_policy db location_ m2) as [p2|].
  - destruct H2 as (Hin2 & (Hsc2 & Hthr2) & _).
    assert (Hm1 : policy_matches location_ m1 p2)
      by (split; [exact Hsc2 | lra]).
    destruct (best_policy db location_ m1) as [p1|].
    + destruct H1 as (Hin1 & (Hsc1 & _) & Hmax1).
      apply (Hgraded p2 Hin2 Hsc2); auto.
    + exfalso. exact (H1 p2 Hin2 Hm1).
  - destruct (best_policy db location_ m1) as [p1|]; [ | lra].
    destruct H1 as (Hin1 & (Hsc1 & _) & _).
    apply (Hgraded p1 Hin1 Hsc1).
Qed.

Lemma C6_monotone_between_45_and_90_minutes_witness :
  (resolved_refund_percentage
     (Scenario.with_policies Scenario.empty
        [Scenario.global_60_50; Scenario.local_30_20]) 1 45
   <= resolved_refund_percentage
        (Scenario.with_policies Scenario.empty
           [Scenario.global_60_50; Scenario.local_30_20]) 1 90)%Q.
Proof.
  apply C6_refund_percentage_is_monotone_for_graded_policies.
  - intros p Hp _. simpl in Hp.
    destruct Hp as [<- | [<- | []]]; (split; [vm_compute; discriminate | ]);
      intros q Hq _ Hthr; simpl in Hq;
      destruct Hq as [<- | [<- | []]];
      solve [vm_compute; discriminate | vm_compute in Hthr; now elim Hthr].
  - vm_compute. discriminate.
  - vm_compute. discriminate.
Defined.

(** ** Cancellation: the refund *)

(** C7 (cancelling a paid booking before its start under a policy that
    grants 100% leaves nothing paid, sets the status CANCELLED and writes
    one REFUNDED payment of the amount paid).  [cancel_booking] never gets
    that far: the refundable amount is the product of the paid amount, a
    [decimal.Decimal], and a [float], which raises [TypeError].  Alice's
    booking of 09:00 to 11:00, confirmed and paid 200.00, under the policy
    that grants 100% at any time before the start: her cancellation at
    07:00 resolves 100%, is answered by the exception and writes nothing;
    the booking stays CONFIRMED with 200.00 paid and the only payment row
    is the one of the booking. *)
Theorem C7_cancellation_raises_and_refunds_nothing :
  let db := Scenario.with_policies Scenario.booked_9_to_11
              [Scenario.global_0_100] in
  let now := Scenario.at_clock Scenario.monday 7 0 in
  (exists booking,
      get_confirmed_booking db 1 Scenario.alice = Some booking
      /\ now < entry_datetime_expected booking
      /\ (amount_paid booking == 200)%Q
      /\ (amount_expected booking == 200)%Q
      /\ (resolved_refund_percentage db (location booking)
            (minutes_before_start booking now) == 100)%Q)
  /\ cancel_booking db Scenario.alice POST 1 now = (Raised TypeError, db)
  /\ map status (bookings db) = [STATUS_CONFIRMED]
  /\ Forall2 Qeq (map amount_paid (bookings db)) [200%Q]
  /\ map payment_status (payments db) = [PAY_SUCCESS].
Proof.
  cbv zeta. split.
  - eexists. split; [vm_compute; reflexivity | ].
    repeat split; vm_compute; reflexivity.
  - split; [vm_compute; reflexivity | ].
    split; [vm_compute; reflexivity | ].
    split; [vm_compute; repeat constructor | vm_compute; reflexivity].
Qed.

(** ** The overtime sweep *)

Import process_parking_automation.

Lemma has_unpaid_fine_existsb (db : DB) (b : Booking) :
  has_unpaid_fine db b = existsb (unpaid_fine_of (id b)) (fines db).
Proof. reflexivity. Qed.

Lemma no_unpaid_fine (db : DB) (b : Booking) :
  has_unpaid_fine db b = false -> unpaid_fines db (id b) = [].
Proof.
  rewrite has_unpaid_fine_existsb. unfold unpaid_fines.
  induction (fines db) as [|f fs IH]; simpl; [reflexivity | ].
  intros H. apply orb_false_iff in H. destruct H as (Hf & Hfs).
  rewrite Hf. auto.
Qed.

Lemma fine_overtime_frame (l : list Booking) (db : DB) :
  let db' := snd (fine_overtime l db) in
  bookings db' = bookings db /\ locations db' = locations db
  /\ exists new, fines db' = fines db ++ new.
Proof.
  revert db. induction l as [|b l IH]; intros db; simpl.
  - repeat split. exists []. now rewrite app_nil_r.
  - destruct (has_unpaid_fine db b); [apply IH | ].
    destruct (get_location db (location b)) as [loc|]; simpl.
    + match goal with |- context [fine_overtime l ?d] =>
        destruct (IH d) as (Hb & Hl & new & Hf) end.
      simpl in *. rewrite Hb, Hl, Hf. repeat split.
      eexists. rewrite <- app_assoc. reflexivity.
    + repeat split. exists []. now rewrite app_nil_r.
Qed.

Lemma fine_overtime_keeps_at_most_one (l : list Booking) (db : DB) :
  at_most_one_unpaid_fine db ->
  at_most_one_unpaid_fine (snd (fine_overtime l db)).
Proof.
  revert db. induction l as [|b l IH]; intros db Hinv; simpl; [exact Hinv | ].
  destruct (has_unpaid_fine db b) eqn:Hun; [now apply IH | ].
  destruct (get_location db (location b)) as [loc|]; [ | exact Hinv].
  apply IH. intros k. unfold unpaid_fines. simpl.
  rewrite filter_app, length_app. simpl. unfold unpaid_fine_of at 2. simpl.
  destruct (id b =? k) eqn:E; simpl.
  - apply Z.eqb_eq in E. subst k.
    fold (unpaid_fines db (id b)). rewrite (no_unpaid_fine db b Hun). simpl. lia.
  - specialize (Hinv k). unfold unpaid_fines in Hinv. lia.
Qed.

Lemma has_unpaid_fine_grows (db db' : DB) (b : Booking) (new : list Fine) :
  fines db' = fines db ++ new ->
  has_unpaid_fine db b = true -> has_unpaid_fine db' b = true.
Proof.
  rewrite !has_unpaid_fine_existsb. intros ->. rewrite existsb_app.
  intros ->. reflexivity.
Qed.

Lemma fine_overtime_rerun (l : list Booking) (db : DB) :
  fine_overtime l (snd (fine_overtime l db)) = fine_overtime l db.
Proof.
  revert db. induction l as [|b l IH]; intros db; simpl; [reflexivity | ].
  destruct (has_unpaid_fine db b) eqn:Hun.
  - destruct (fine_overtime_frame l db) as (_ & _ & new & Hnew).
    rewrite (has_unpaid_fine_grows db _ b new Hnew Hun). apply IH.
  - destruct (get_location db (location b)) as [loc|] eqn:Hloc; simpl.
    + match goal with |- context [fine_overtime l ?d] => set (db2 := d) end.
      destruct (fine_overtime_frame l db2) as (_ & _ & new & Hnew).
      assert (Hdb2 : has_unpaid_fine db2 b = true).
      { rewrite has_unpaid_fine_existsb. unfold db2. simpl.
        rewrite existsb_app. simpl. unfold unpaid_fine_of at 2. simpl.
        rewrite Z.eqb_refl. simpl. apply orb_true_r. }
      rewrite (has_unpaid_fine_grows db2 _ b new Hnew Hdb2). apply IH.
    + rewrite Hun, Hloc. reflexivity.
Qed.

Lemma fine_overtime_reads_fines_and_locations (l : list Booking) (db1 db2 : DB) :
  fines db1 = fines db2 -> locations db1 = locations db2 ->
  fst (fine_overtime l db1) = fst (fine_overtime l db2)
  /\ fines (snd (fine_overtime l db1)) = fines (snd (fine_overtime l db2)).
Proof.
  revert db1 db2. induction l as [|b l IH]; intros db1 db2 Hf Hl; simpl;
    [auto | ].
  rewrite !has_unpaid_fine_existsb, Hf. unfold get_location. rewrite Hl.
  destruct (existsb _ _); [now apply IH | ].
  destruct (find _ _) as [loc|]; [ | auto].
  apply IH; simpl; congruence.
Qed.

Lemma fold_remind_frame (l : list Booking) (db : DB) :
  let db' := fold_left remind l db in
  bookings db' = bookings db /\ locations db' = locations db
  /\ fines db' = fines db.
Proof.
  revert db. induction l as [|b l IH]; intros db; simpl; [auto | ].
  destruct (IH (remind db b)) as (Hb & Hl & Hf). simpl in *. auto.
Qed.

Lemma overtime_sweep_rerun (db : DB) (now : datetime) :
  fines (snd (handle (snd (handle db now)) now)) = fines (snd (handle db now)).
Proof.
  unfold handle.
  destruct (fold_remind_frame (filter (ending_soon now) (bookings db)) db)
    as (Hb1 & Hl1 & Hf1).
  set (db1 := fold_left remind (filter (ending_soon now) (bookings db)) db) in *.
  rewrite Hb1.
  set (l := filter (overtime now) (bookings db)).
  destruct (fine_overtime_frame l db1) as (Hb' & Hl' & _).
  set (db' := snd (fine_overtime l db1)) in *.
  destruct (fold_remind_frame (filter (ending_soon now) (bookings db')) db')
    as (Hb2 & Hl2 & Hf2).
  set (db2 := fold_left remind (filter (ending_soon now) (bookings db')) db') in *.
  rewrite Hb2, Hb', Hb1. fold l.
  destruct (fine_overtime_reads_fines_and_locations l db2 db' Hf2 Hl2)
    as (_ & ->).
  unfold db'. now rewrite fine_overtime_rerun.
Qed.

Lemma filter_filter {A} (f g : A -> bool) (l : list A) :
  filter f (filter g l) = filter (fun x => g x && f x) l.
Proof.
  induction l as [|a l IH]; simpl; [reflexivity | ].
  destruct (g a); simpl; [destruct (f a) | ]; now rewrite IH.
Qed.

Lemma filter_keeps_unique_ids (keep : Booking -> bool) (bs : list Booking) :
  NoDup (map id bs) -> NoDup (map id (filter keep bs)).
Proof.
  induction bs as [|b bs IH]; simpl; [auto | ].
  intros Hnd. inversion Hnd as [|? ? Hfresh Hnd']; subst.
  destruct (keep b); simpl; [ | auto].
  constructor; [ | auto]. intros Hin. apply Hfresh.
  apply in_map_iff in Hin. destruct Hin as (b' & Hid & Hin).
  apply filter_In in Hin. apply in_map_iff. exists b'. tauto.
Qed.

Lemma fine_overtime_exact (l : list Booking) (db : DB) :
  NoDup (map id l) ->
  (forall b, In b l -> get_location db (location b) <> None) ->
  fst (fine_overtime l db) = Done
  /\ fines (snd (fine_overtime l db))
     = fines db
       ++ map (overtime_fine db)
              (filter (fun b => negb (has_unpaid_fine db b)) l).
Proof.
  revert db. induction l as [|b l IH]; intros db Hnd Hloc; simpl.
  - split; [reflexivity | now rewrite app_nil_r].
  - inversion Hnd as [|? ? Hnotin Hnd']; subst.
    destruct (has_unpaid_fine db b) eqn:Hun; simpl.
    + apply IH; [exact Hnd' | ]. intros b' Hb'. apply Hloc. now right.
    + destruct (get_location db (location b)) as [loc|] eqn:Hb;
        [ | exfalso; now apply (Hloc b (or_introl eq_refl))].
      match goal with |- context [fine_overtime l ?d] => set (db2 := d) end.
      destruct (IH db2 Hnd') as (Hdone & Hfines).
      { intros b' Hb'. apply Hloc. now right. }
      split; [exact Hdone | ]. rewrite Hfines.
      unfold db2 at 1. simpl. rewrite <- app_assoc. simpl.
      f_equal. f_equal.
      * unfold overtime_fine. now rewrite Hb.
      * assert (Hsame : forall b', In b' l ->
                   negb (has_unpaid_fine db2 b') = negb (has_unpaid_fine db b')).
        { intros b' Hb'. rewrite !has_unpaid_fine_existsb. unfold db2. simpl.
          rewrite existsb_app. simpl. unfold unpaid_fine_of at 2. simpl.
          replace (id b =? id b') with false; [now rewrite !orb_false_r | ].
          symmetry. apply Z.eqb_neq. intros E. apply Hnotin.
          rewrite E. now apply in_map. }
        rewrite (filter_ext_in _ _ _ Hsame). reflexivity.
Qed.

Lemma fines_fold_update (f : Booking -> Booking) (l : list Booking) (db : DB) :
  fines (fold_left (fun db' b => update_booking db' (id b) f) l db) = fines db.
Proof.
  revert db. induction l as [|b l IH]; intros db; simpl; [reflexivity | ].
  now rewrite IH.
Qed.

Lemma apply_op_keeps_at_most_one (db : DB) (op : Op) :
  at_most_one_unpaid_fine db -> at_most_one_unpaid_fine (apply_op db op).
Proof.
  intros Hinv.
  assert (Hsame : forall db', fines db' = fines db ->
                              at_most_one_unpaid_fine db').
  { intros db' Heq k. unfold unpaid_fines. rewrite Heq. apply Hinv. }
  destruct op; simpl.
  - apply Hsame. unfold create_booking. each_path; reflexivity.
  - apply Hsame. unfold extend_booking, save_extension, arith.
    each_path; reflexivity.
  - apply Hsame. now rewrite cancel_booking_writes_nothing.
  - apply Hsame. unfold staff_scan_qr. each_path; reflexivity.
  - apply Hsame. apply fines_fold_update.
  - unfold handle. apply fine_overtime_keeps_at_most_one.
    apply Hsame. apply fold_remind_frame.
Qed.

(** C8: the operations of the core keep "at most one unpaid fine for each
    booking", so it holds after any number of overtime sweeps; on a
    database with unique booking keys and no dangling location, a sweep
    writes exactly one unpaid fine, of the hourly rate of the booking's
    location, for each confirmed booking past its expected exit that has
    no unpaid fine, and none for any other booking; and a second sweep at
    the same instant leaves the fines as the first one left them. *)
Theorem C8_overtime_sweep_fines_each_overstay_once :
  (forall db ops,
      at_most_one_unpaid_fine db -> at_most_one_unpaid_fine (run ops db))
  /\ (forall db now,
         unique_booking_ids db -> locations_present db ->
         fst (process_parking_automation.handle db now) = Done
         /\ fines (snd (process_parking_automation.handle db now))
            = fines db
              ++ map (overtime_fine db)
                     (filter (due_for_fine db now) (bookings db)))
  /\ (forall db now,
         fines (snd (process_parking_automation.handle
                       (snd (process_parking_automation.handle db now)) now))
         = fines (snd (process_parking_automation.handle db now))).
Proof.
  split; [ | split].
  - intros db ops. revert db. unfold run.
    induction ops as [|op ops IH]; intros db Hinv; simpl; [exact Hinv | ].
    apply IH. now apply apply_op_keeps_at_most_one.
  - intros db now Hids Hlocs. unfold handle.
    destruct (fold_remind_frame (filter (ending_soon now) (bookings db)) db)
      as (Hb1 & Hl1 & Hf1).
    set (db1 := fold_left remind (filter (ending_soon now) (bookings db)) db)
      in *.
    assert (Hget : forall k, get_location db1 k = get_location db k)
      by (intros k; unfold get_location; now rewrite Hl1).
    assert (Hun : forall b, has_unpaid_fine db1 b = has_unpaid_fine db b)
      by (intros b; rewrite !has_unpaid_fine_existsb; now rewrite Hf1).
    destruct (fine_overtime_exact (filter (overtime now) (bookings db1)) db1)
      as (Hdone & Hfines).
    + rewrite Hb1. now apply filter_keeps_unique_ids.
    + intros b Hb. rewrite Hb1 in Hb. apply filter_In in Hb.
      rewrite Hget. now apply Hlocs.
    + split; [exact Hdone | ]. rewrite Hfines, Hb1, Hf1, filter_filter.
      f_equal. rewrite (filter_ext _ (due_for_fine db now)).
      * apply map_ext. intros b. unfold overtime_fine. now rewrite Hget.
      * intros b. unfold due_for_fine. now rewrite Hun.
  - exact overtime_sweep_rerun.
Qed.

Lemma C8_one_fine_for_the_overstay_witness :
  let db := Scenario.booked_9_to_11 in
  let noon := Scenario.at_clock Scenario.monday 12 0 in
  at_most_one_unpaid_fine (run [OpOvertimeSweep noon; OpOvertimeSweep noon] db)
  /\ (fst (process_parking_automation.handle db noon) = Done
      /\ fines (snd (process_parking_automation.handle db noon))
         = fines db
           ++ map (overtime_fine db)
                  (filter (due_for_fine db noon) (bookings db)))
  /\ fines (run [OpOvertimeSweep noon; OpOvertimeSweep noon] db)
     = [ {| fine_booking := 1; fine_amount := 100; fine_status := FINE_UNPAID |} ].
Proof.
  cbv zeta.
  destruct C8_overtime_sweep_fines_each_overstay_once as (Hinv & Hexact & _).
  split; [ | split].
  - apply Hinv. intros k. simpl. lia.
  - apply Hexact.
    + vm_compute. repeat constructor. intros [].
    + intros b [<- | []]. vm_compute. discriminate.
  - vm_compute. reflexivity.
Defined.

(** ** No double booking *)

Lemma booking_status_eqb_true (a b : BookingStatus) :
  booking_status_eqb a b = true <-> a = b.
Proof. destruct a, b; simpl; split; congruence. Qed.

Lemma overlaps_iff (slot_ : Z) (ws we : datetime) (b : Booking) :
  overlaps slot_ ws we b = true <-> conflicts_with slot_ ws we b.
Proof.
  unfold overlaps, conflicts_with.
  rewrite !andb_true_iff, Z.eqb_eq, booking_status_eqb_true, Z.ltb_lt, Z.gtb_gt.
  tauto.
Qed.

Lemma windows_intersect_iff (a b : Booking) :
  entry_datetime_expected a < exit_datetime_expected a ->
  entry_datetime_expected b < exit_datetime_expected b ->
  windows_intersect a b
  <-> entry_datetime_expected a < exit_datetime_expected b
      /\ entry_datetime_expected b < exit_datetime_expected a.
Proof.
  intros Ha Hb. unfold windows_intersect. split.
  - intros (t & H1 & H2). lia.
  - intros (H1 & H2).
    exists (Z.max (entry_datetime_expected a) (entry_datetime_expected b)). lia.
Qed.

Lemma same_id_same_row (bs : list Booking) (a b : Booking) :
  NoDup (map id bs) -> In a bs -> In b bs -> id a = id b -> a = b.
Proof.
  induction bs as [|r bs IH]; simpl; [tauto | ].
  intros Hnd Ha Hb Hid. inversion Hnd as [|? ? Hnotin Hnd']; subst.
  destruct Ha as [-> | Ha], Hb as [-> | Hb]; auto.
  - exfalso. apply Hnotin. rewrite Hid. now apply in_map.
  - exfalso. apply Hnotin. rewrite <- Hid. now apply in_map.
Qed.

Lemma quiet_map_invariant (f : Booking -> Booking) (bs : list Booking) (seq : Z) :
  quiet f -> rows_invariant bs seq -> rows_invariant (map f bs) seq.
Proof.
  intros Hq ((Hnd & Hseq & Hwin) & Hno).
  assert (Hids : map id (map f bs) = map id bs).
  { rewrite map_map. apply map_ext. intros r. apply Hq. }
  split; [split; [ | split] | ].
  - now rewrite Hids.
  - intros b Hb. apply in_map_iff in Hb. destruct Hb as (r & <- & Hr).
    destruct (Hq r) as (-> & _). auto.
  - intros b Hb Hst. apply in_map_iff in Hb. destruct Hb as (r & <- & Hr).
    destruct (Hq r) as (_ & _ & -> & -> & Hc). auto.
  - intros a b Ha Hb Hne Hsa Hsb Hslot (t & Hta & Htb).
    apply in_map_iff in Ha. destruct Ha as (ra & <- & Hra).
    apply in_map_iff in Hb. destruct Hb as (rb & <- & Hrb).
    destruct (Hq ra) as (Ha1 & Ha2 & Ha3 & Ha4 & Ha5).
    destruct (Hq rb) as (Hb1 & Hb2 & Hb3 & Hb4 & Hb5).
    apply (Hno ra rb Hra Hrb); try congruence; auto.
    exists t. lia.
Qed.

Lemma quiet_update (k : Z) (write : Booking -> Booking) :
  quiet write -> quiet (fun row => if id row =? k then write row else row).
Proof.
  intros Hq r. destruct (id r =? k); [apply Hq | tauto].
Qed.

Lemma quiet_set_status (st : BookingStatus) :
  st <> STATUS_CONFIRMED -> quiet (set_status st).
Proof. intros Hst r. simpl. intuition congruence. Qed.

Lemma quiet_set_actual_entry (t : datetime) : quiet (set_actual_entry t).
Proof. intros r. simpl. tauto. Qed.

Lemma quiet_set_actual_exit_and_status (t : datetime) (st : BookingStatus) :
  st <> STATUS_CONFIRMED -> quiet (set_actual_exit_and_status t st).
Proof. intros Hst r. simpl. intuition congruence. Qed.

Lemma update_fresh_key (bs : list Booking) (seq : Z) (write : Booking -> Booking) :
  (forall b, In b bs -> id b <= seq) ->
  map (fun row => if id row =? seq + 1 then write row else row) bs = bs.
Proof.
  intros Hseq. rewrite <- (map_id bs) at 2. apply map_ext_in.
  intros r Hr. specialize (Hseq r Hr).
  replace (id r =? seq + 1) with false; [reflexivity | ].
  symmetry. apply Z.eqb_neq. lia.
Qed.

Lemma append_confirmed_invariant (bs : list Booking) (seq : Z) (c : Booking) :
  rows_invariant bs seq ->
  id c = seq + 1 ->
  entry_datetime_expected c < exit_datetime_expected c ->
  existsb (overlaps (slot c) (entry_datetime_expected c)
                    (exit_datetime_expected c)) bs = false ->
  rows_invariant (bs ++ [c]) (seq + 1).
Proof.
  intros ((Hnd & Hseq & Hwin) & Hno) Hid Hc Hfree.
  assert (Hfree' : forall b, In b bs ->
            ~ conflicts_with (slot c) (entry_datetime_expected c)
                             (exit_datetime_expected c) b).
  { intros b Hb Hcf. apply overlaps_iff in Hcf.
    assert (existsb (overlaps (slot c) (entry_datetime_expected c)
                              (exit_datetime_expected c)) bs = true)
      by (apply existsb_exists; eauto).
    congruence. }
  split; [split; [ | split] | ].
  - rewrite map_app. simpl. apply NoDup_app; [exact Hnd | repeat constructor; auto | ].
    intros k Hk [<- | []]. apply in_map_iff in Hk.
    destruct Hk as (b & Hb1 & Hb2). specialize (Hseq b Hb2). lia.
  - intros b Hb. apply in_app_iff in Hb. destruct Hb as [Hb | [<- | []]].
    + specialize (Hseq b Hb). lia.
    + lia.
  - intros b Hb Hst. apply in_app_iff in Hb. destruct Hb as [Hb | [<- | []]]; auto.
  - intros a b Ha Hb Hne Hsa Hsb Hslot Hint.
    apply in_app_iff in Ha. apply in_app_iff in Hb.
    destruct Ha as [Ha | [<- | []]], Hb as [Hb | [<- | []]].
    + now apply (Hno a b).
    + apply (Hfree' a Ha). apply windows_intersect_iff in Hint; auto.
      unfold conflicts_with. intuition lia.
    + apply (Hfree' b Hb). apply windows_intersect_iff in Hint; auto.
      unfold conflicts_with. intuition lia.
    + congruence.
Qed.

Lemma BookingForm_clean_Some (e x : option datetime) (entry exit_ : datetime) :
  BookingForm_clean e x = Some (entry, exit_) ->
  e = Some entry /\ x = Some exit_ /\ entry < exit_.
Proof.
  unfold BookingForm_clean. destruct e as [e|], x as [x|]; try discriminate.
  destruct (x <=? e) eqn:E; [discriminate | ].
  apply Z.leb_gt in E. intros H. inversion H; subst. auto.
Qed.

Lemma create_booking_invariant (db : DB) u m l s e x now :
  booking_invariant db ->
  booking_invariant (snd (create_booking db u m l s e x now)).
Proof.
  intros Hinv. unfold create_booking. 
  destruct (get_active_location db l) as [loc|]; [ | exact Hinv].
  destruct (get_slot_of db s loc) as [slot_|]; [ | exact Hinv].
  destruct m; [exact Hinv | ].
  destruct (BookingForm_clean e x) as [[entry exit_]|] eqn:Hform; [ | exact Hinv].
  apply BookingForm_clean_Some in Hform. destruct Hform as (_ & _ & Hwin).
  destruct (existsb _ _) eqn:Hfree; [exact Hinv | ].
  destruct (default_vehicle db u) as [v|]; [ | exact Hinv].
  unfold booking_invariant. cbn.
  rewrite map_app, (update_fresh_key _ (booking_seq db)) by apply Hinv.
  cbn. rewrite Z.eqb_refl.
  apply append_confirmed_invariant; auto.
Qed.

Lemma update_booking_invariant (db : DB) (k : Z) (write : Booking -> Booking) :
  quiet write -> booking_invariant db ->
  booking_invariant (update_booking db k write).
Proof.
  intros Hq Hinv. unfold booking_invariant. simpl.
  apply quiet_map_invariant; [now apply quiet_update | exact Hinv].
Qed.

Lemma extend_booking_invariant (db : DB) u m k x :
  booking_invariant db ->
  booking_invariant (snd (extend_booking db u m k x)).
Proof.
  intros Hinv. destruct (extend_booking_keeps_bookings db u m k x) as (Hb & Hs).
  unfold booking_invariant. now rewrite Hb, Hs.
Qed.

Lemma cancel_booking_invariant (db : DB) u m k now :
  booking_invariant db ->
  booking_invariant (snd (cancel_booking db u m k now)).
Proof.
  intros Hinv. now rewrite cancel_booking_writes_nothing.
Qed.

Lemma staff_scan_qr_invariant (db : DB) m code now :
  booking_invariant db ->
  booking_invariant (snd (staff_scan_qr db m code now)).
Proof.
  intros Hinv. unfold staff_scan_qr. each_path; try exact Hinv;
    unfold booking_invariant; cbn;
    (apply quiet_map_invariant; [ | exact Hinv]); apply quiet_update.
  - now apply quiet_set_actual_exit_and_status.
  - apply quiet_set_actual_entry.
Qed.

Lemma expiry_sweep_invariant (db : DB) (now : datetime) :
  booking_invariant db ->
  booking_invariant (snd (cleanup_reservations.handle db now)).
Proof.
  unfold cleanup_reservations.handle. simpl.
  generalize (filter (cleanup_reservations.expired now) (bookings db)).
  intros l. revert db. induction l as [|b l IH]; intros db Hinv; simpl;
    [exact Hinv | ].
  apply IH. apply update_booking_invariant; [ | exact Hinv].
  now apply quiet_set_status.
Qed.

Lemma fine_overtime_keeps_booking_seq (l : list Booking) (db : DB) :
  booking_seq (snd (fine_overtime l db)) = booking_seq db.
Proof.
  revert db. induction l as [|b l IH]; intros db; simpl; [reflexivity | ].
  destruct (has_unpaid_fine db b); [apply IH | ].
  destruct (get_location db (location b)); [ | reflexivity].
  now rewrite IH.
Qed.

Lemma fold_remind_keeps_booking_seq (l : list Booking) (db : DB) :
  booking_seq (fold_left remind l db) = booking_seq db.
Proof.
  revert db. induction l as [|b l IH]; intros db; simpl; [reflexivity | ].
  now rewrite IH.
Qed.

Lemma overtime_sweep_invariant (db : DB) (now : datetime) :
  booking_invariant db ->
  booking_invariant (snd (handle db now)).
Proof.
  intros Hinv. unfold handle, booking_invariant.
  rewrite fine_overtime_keeps_booking_seq, fold_remind_keeps_booking_seq.
  match goal with |- context [fine_overtime ?l ?d] =>
    destruct (fine_overtime_frame l d) as (-> & _) end.
  destruct (fold_remind_frame (filter (ending_soon now) (bookings db)) db)
    as (-> & _).
  exact Hinv.
Qed.

Lemma apply_op_invariant (db : DB) (op : Op) :
  booking_invariant db -> booking_invariant (apply_op db op).
Proof.
  destruct op; simpl.
  - apply create_booking_invariant.
  - apply extend_booking_invariant.
  - apply cancel_booking_invariant.
  - apply staff_scan_qr_invariant.
  - apply expiry_sweep_invariant.
  - apply overtime_sweep_invariant.
Qed.

Lemma run_invariant (ops : list Op) (db : DB) :
  booking_invariant db -> booking_invariant (run ops db).
Proof.
  unfold run. revert db. induction ops as [|op ops IH]; intros db Hinv; simpl;
    [exact Hinv | ].
  apply IH. now apply apply_op_invariant.
Qed.

(** The conflict rejection of [create_booking], for a request that finds
    its location and slot and posts a window that ends after it starts. *)
Lemma create_booking_rejects_iff (db : DB) u l s e x now loc slot_ :
  get_active_location db l = Some loc ->
  get_slot_of db s loc = Some slot_ ->
  e < x ->
  fst (create_booking db u POST l s (Some e) (Some x) now)
  = Redirect ERROR MsgSlotAlreadyBooked
  <-> exists b, In b (bookings db) /\ conflicts_with s e x b.
Proof.
  intros Hloc Hslot Hwin. unfold create_booking. rewrite Hloc, Hslot.
  assert (Hs : slot_id slot_ = s).
  { unfold get_slot_of in Hslot. apply find_some in Hslot.
    destruct Hslot as (_ & H). apply andb_true_iff in H.
    now apply Z.eqb_eq. }
  rewrite Hs. simpl BookingForm_clean.
  replace (x <=? e) with false by (symmetry; apply Z.leb_gt; lia).
  destruct (existsb (overlaps s e x) (bookings db)) eqn:E.
  - apply existsb_exists in E. destruct E as (b & Hb & Hov).
    apply overlaps_iff in Hov. simpl. split; [eauto | reflexivity].
  - assert (Hnone : ~ exists b, In b (bookings db) /\ conflicts_with s e x b).
    { intros (b & Hb & Hcf). apply overlaps_iff in Hcf.
      assert (existsb (overlaps s e x) (bookings db) = true)
        by (apply existsb_exists; eauto).
      congruence. }
    unfold insert_booking, create_payment.
    destruct (default_vehicle db u); simpl; split;
      solve [discriminate | intros H; now elim Hnone].
Qed.

(** C1: in every state that the operations of the core reach from a
    well-formed state without double booking (from a state without any
    booking in particular), two distinct confirmed bookings of one slot
    never have intersecting half-open windows [[entry, exit)].  A posted
    window that ends after it starts is refused as a conflict exactly when
    some confirmed booking of the slot starts before the window ends and
    ends after the window starts; so a window that starts when a confirmed
    booking ends, or ends when one starts, is admitted. *)
Theorem C1_confirmed_bookings_of_a_slot_never_overlap :
  (forall db ops,
      well_formed db -> no_double_booking db ->
      well_formed (run ops db) /\ no_double_booking (run ops db))
  /\ (forall db ops, bookings db = [] -> no_double_booking (run ops db))
  /\ (forall db request_user location_id_ slot_id_ entry exit_ now loc slot_,
         get_active_location db location_id_ = Some loc ->
         get_slot_of db slot_id_ loc = Some slot_ ->
         entry < exit_ ->
         fst (create_booking db request_user POST location_id_ slot_id_
                             (Some entry) (Some exit_) now)
         = Redirect ERROR MsgSlotAlreadyBooked
         <-> exists b, In b (bookings db)
                       /\ conflicts_with slot_id_ entry exit_ b)
  /\ (let db := Scenario.booked_9_to_11 in
      fst (Scenario.book db 1 11 0 12 0) = Redirect SUCCESS MsgBookingCreated
      /\ fst (Scenario.book db 1 8 0 9 0) = Redirect SUCCESS MsgBookingCreated
      /\ fst (Scenario.book db 2 10 0 12 0) = Redirect SUCCESS MsgBookingCreated
      /\ Scenario.book db 1 10 59 12 0 = (Redirect ERROR MsgSlotAlreadyBooked, db)
      /\ Scenario.book db 1 8 0 9 1 = (Redirect ERROR MsgSlotAlreadyBooked, db)).
Proof.
  split; [ | split; [ | split]].
  - intros db ops Hwf Hno.
    exact (run_invariant ops db (conj Hwf Hno)).
  - intros db ops Hempty.
    apply (run_invariant ops db). unfold booking_invariant. rewrite Hempty.
    split; [split; [apply NoDup_nil | split] | ].
    + intros b [].
    + intros b [].
    + intros a b [].
  - intros. now apply create_booking_rejects_iff with (loc := loc) (slot_ := slot_).
  - vm_compute. repeat split.
Qed.

Lemma C1_busy_morning_witness :
  no_double_booking (run Scenario.busy_morning Scenario.empty)
  /\ map (fun b => (id b, slot b, status b,
                    entry_datetime_expected b, exit_datetime_expected b))
         (bookings (run Scenario.busy_morning Scenario.empty))
     = [ (1, 1, STATUS_CONFIRMED,
          Scenario.at_clock Scenario.monday 9 0,
          Scenario.at_clock Scenario.monday 11 0);
         (2, 1, STATUS_CONFIRMED,
          Scenario.at_clock Scenario.monday 11 0,
          Scenario.at_clock Scenario.monday 12 0) ].
Proof.
  split.
  - apply (proj1 (proj2 C1_confirmed_bookings_of_a_slot_never_overlap)).
    reflexivity.
  - vm_compute. reflexivity.
Defined.

(** ** The booking state machine *)

(** A scan reads the booking by its key alone: once the entry is recorded
    and the exit is not, it records the exit and writes COMPLETED over
    whatever the status was. *)
Lemma staff_scan_qr_completes_any_status
    (db : DB) (booking_id : Z) (now t : datetime) (booking : Booking) :
  get_booking db booking_id = Some booking ->
  actual_entry_datetime booking = Some t ->
  actual_exit_datetime booking = None ->
  fst (staff_scan_qr db POST (Some booking_id) now)
  = Redirect INFO MsgExitRecorded
  /\ forall b', In b' (bookings (snd (staff_scan_qr db POST (Some booking_id) now))) ->
       id b' = booking_id -> status b' = STATUS_COMPLETED.
Proof.
  intros Hget Hentry Hexit. unfold staff_scan_qr.
  rewrite Hget, Hentry, Hexit. simpl. split; [reflexivity | ].
  assert (Hid : id booking = booking_id).
  { unfold get_booking in Hget. apply find_some in Hget.
    now apply Z.eqb_eq. }
  intros b' Hb' Hk. apply in_map_iff in Hb'. destruct Hb' as (r & <- & _).
  destruct (id r =? id booking) eqn:E; [reflexivity | ].
  apply Z.eqb_neq in E. congruence.
Qed.

Lemma staff_scan_qr_completes_any_status_witness :
  let db := run Scenario.scanned_in_then_cancelled Scenario.empty in
  let now := Scenario.at_clock Scenario.monday 9 5 in
  fst (staff_scan_qr db POST (Some 1) now) = Redirect INFO MsgExitRecorded
  /\ forall b', In b' (bookings (snd (staff_scan_qr db POST (Some 1) now))) ->
       id b' = 1 -> status b' = STATUS_COMPLETED.
Proof.
  cbv zeta.
  destruct (get_booking (run Scenario.scanned_in_then_cancelled Scenario.empty) 1)
    as [b|] eqn:Hget; [ | vm_compute in Hget; discriminate].
  apply (staff_scan_qr_completes_any_status _ 1 _
           (Scenario.at_clock Scenario.monday 8 50) b Hget).
  - vm_compute in Hget. inversion Hget; subst. reflexivity.
  - vm_compute in Hget. inversion Hget; subst. reflexivity.
Defined.

(** C5 (CANCELLED and COMPLETED are terminal: no operation changes the
    status of such a booking).  [staff_scan_qr] does not look at the
    status: it fetches the booking by its key, and a CANCELLED booking
    whose entry is recorded and whose exit is not is written COMPLETED.
    Alice's booking, left unpaid, scanned in at 08:50 and cancelled by the
    expiry sweep of 08:55, is CANCELLED; the scan at 09:05 answers "exit
    recorded" and the booking is COMPLETED. *)
Example C5_cancelled_booking_is_completed_by_a_scan :
  (forall db booking_id now entered booking,
      get_booking db booking_id = Some booking ->
      status booking = STATUS_CANCELLED ->
      actual_entry_datetime booking = Some entered ->
      actual_exit_datetime booking = None ->
      fst (staff_scan_qr db POST (Some booking_id) now)
      = Redirect INFO MsgExitRecorded
      /\ exists b',
           In b' (bookings (snd (staff_scan_qr db POST (Some booking_id) now)))
           /\ id b' = booking_id /\ status b' = STATUS_COMPLETED)
  /\ (let db := Scenario.scanned_in_then_reclaimed in
      let scan := staff_scan_qr db POST (Some 1)
                    (Scenario.at_clock Scenario.monday 9 5) in
      map status (bookings Scenario.left_unpaid) = [STATUS_PENDING_PAYMENT]
      /\ map status (bookings db) = [STATUS_CANCELLED]
      /\ map actual_entry_datetime (bookings db)
         = [Some (Scenario.at_clock Scenario.monday 8 50)]
      /\ map actual_exit_datetime (bookings db) = [None]
      /\ fst scan = Redirect INFO MsgExitRecorded
      /\ map status (bookings (snd scan)) = [STATUS_COMPLETED]).
Proof.
  split.
  - intros db booking_id now entered booking Hget _ Hentry Hexit.
    unfold staff_scan_qr. rewrite Hget, Hentry, Hexit. simpl.
    split; [reflexivity | ].
    unfold get_booking in Hget. apply find_some in Hget.
    destruct Hget as (Hin & Hid). apply Z.eqb_eq in Hid.
    exists (set_actual_exit_and_status now STATUS_COMPLETED booking).
    split; [ | split; [exact Hid | reflexivity]].
    apply in_map_iff. exists booking. split; [ | exact Hin].
    now rewrite Z.eqb_refl.
  - vm_compute. repeat split.
Qed.

Lemma rows_keep_refl st bs : rows_keep st bs bs.
Proof. intros b Hb Hst. eauto. Qed.

Lemma rows_keep_trans st bs1 bs2 bs3 :
  rows_keep st bs1 bs2 -> rows_keep st bs2 bs3 -> rows_keep st bs1 bs3.
Proof.
  intros H12 H23 b Hb Hst.
  destruct (H12 b Hb Hst) as (b2 & Hb2 & Hid2 & Hst2).
  destruct (H23 b2 Hb2 Hst2) as (b3 & Hb3 & Hid3 & Hst3).
  exists b3. repeat split; congruence.
Qed.

Lemma rows_keep_app st bs extra : rows_keep st bs (bs ++ extra).
Proof.
  intros b Hb Hst. exists b. split; [apply in_app_iff; now left | auto].
Qed.

Lemma rows_keep_map st (f : Booking -> Booking) bs :
  (forall r, In r bs -> status r = st -> id (f r) = id r /\ status (f r) = st) ->
  rows_keep st bs (map f bs).
Proof.
  intros Hf b Hb Hst. exists (f b).
  split; [now apply in_map | now apply Hf].
Qed.

Lemma create_booking_keeps st db u m l s e x now :
  booking_invariant db ->
  status_kept st db (snd (create_booking db u m l s e x now)).
Proof.
  intros Hinv. unfold create_booking, status_kept.
  each_path; try apply rows_keep_refl. cbn.
  rewrite map_app, (update_fresh_key _ (booking_seq db)) by apply Hinv.
  apply rows_keep_app.
Qed.

Lemma extend_booking_keeps st db u m k x :
  status_kept st db (snd (extend_booking db u m k x)).
Proof.
  unfold status_kept.
  rewrite (proj1 (extend_booking_keeps_bookings db u m k x)).
  apply rows_keep_refl.
Qed.

Lemma cancel_booking_keeps st db u m k now :
  status_kept st db (snd (cancel_booking db u m k now)).
Proof.
  rewrite cancel_booking_writes_nothing. apply rows_keep_refl.
Qed.

Lemma staff_scan_qr_keeps_completed db m code now :
  status_kept STATUS_COMPLETED db (snd (staff_scan_qr db m code now)).
Proof.
  unfold staff_scan_qr, status_kept.
  each_path; try apply rows_keep_refl; cbn;
    apply rows_keep_map; intros r _ Hst; destruct (id r =? id b); auto.
Qed.

Lemma fold_update_keeps_unwritten st (write : Booking -> Booking)
    (l : list Booking) (db : DB) :
  (forall r, id (write r) = id r /\ status (write r) <> st) ->
  (forall r b, In r (bookings db) -> In b l -> id r = id b -> status r <> st) ->
  rows_keep st (bookings db)
    (bookings (fold_left (fun db' b => update_booking db' (id b) write) l db)).
Proof.
  intros Hw. revert db. induction l as [|b l IH]; intros db Hl; simpl;
    [apply rows_keep_refl | ].
  eapply rows_keep_trans; [ | apply IH].
  - simpl. apply rows_keep_map. intros r Hr Hrst.
    destruct (id r =? id b) eqn:E; [ | auto].
    apply Z.eqb_eq in E. exfalso.
    exact (Hl r b Hr (or_introl eq_refl) E Hrst).
  - intros r b' Hr Hb' Hid. simpl in Hr. apply in_map_iff in Hr.
    destruct Hr as (r0 & <- & Hr0).
    destruct (id r0 =? id b) eqn:E.
    + apply Hw.
    + exact (Hl r0 b' Hr0 (or_intror Hb') Hid).
Qed.

Lemma fold_update_keeps_written st (write : Booking -> Booking)
    (l : list Booking) (db : DB) :
  (forall r, id (write r) = id r /\ status (write r) = st) ->
  rows_keep st (bookings db)
    (bookings (fold_left (fun db' b => update_booking db' (id b) write) l db)).
Proof.
  intros Hw. revert db. induction l as [|b l IH]; intros db; simpl;
    [apply rows_keep_refl | ].
  eapply rows_keep_trans; [ | apply IH].
  simpl. apply rows_keep_map. intros r Hr Hrst.
  destruct (id r =? id b); [apply Hw | auto].
Qed.

Lemma expiry_sweep_keeps st db now :
  booking_invariant db -> st = STATUS_COMPLETED \/ st = STATUS_CANCELLED ->
  status_kept st db (snd (cleanup_reservations.handle db now)).
Proof.
  intros Hinv [-> | ->]; unfold cleanup_reservations.handle, status_kept; simpl.
  - apply fold_update_keeps_unwritten.
    + intros r. simpl. split; [reflexivity | discriminate].
    + intros r b Hr Hb Hid. apply filter_In in Hb. destruct Hb as (Hb & Hexp).
      assert (r = b)
        by (apply (same_id_same_row (bookings db)); auto; apply Hinv).
      subst r. unfold cleanup_reservations.expired in Hexp.
      apply andb_true_iff in Hexp. destruct Hexp as (Hp & _).
      apply booking_status_eqb_true in Hp. congruence.
  - apply fold_update_keeps_written. intros r. simpl. auto.
Qed.

Lemma overtime_sweep_keeps st db now :
  status_kept st db (snd (handle db now)).
Proof.
  unfold handle, status_kept.
  match goal with |- context [fine_overtime ?l ?d] =>
    destruct (fine_overtime_frame l d) as (-> & _) end.
  destruct (fold_remind_frame (filter (ending_soon now) (bookings db)) db)
    as (-> & _).
  apply rows_keep_refl.
Qed.

Lemma apply_op_keeps st db op :
  booking_invariant db ->
  st = STATUS_COMPLETED \/ (st = STATUS_CANCELLED /\ is_scan op = false) ->
  status_kept st db (apply_op db op).
Proof.
  intros Hinv Hst.
  assert (Hst' : st = STATUS_COMPLETED \/ st = STATUS_CANCELLED) by tauto.
  destruct op; simpl.
  - now apply create_booking_keeps.
  - apply extend_booking_keeps.
  - apply cancel_booking_keeps.
  - destruct Hst as [-> | (_ & Hscan)]; [ | discriminate].
    apply staff_scan_qr_keeps_completed.
  - now apply expiry_sweep_keeps.
  - apply overtime_sweep_keeps.
Qed.

Lemma run_keeps_completed (ops : list Op) (db : DB) :
  booking_invariant db -> status_kept STATUS_COMPLETED db (run ops db).
Proof.
  unfold run. revert db. induction ops as [|op ops IH]; intros db Hinv; simpl;
    [apply rows_keep_refl | ].
  eapply rows_keep_trans.
  - apply (apply_op_keeps STATUS_COMPLETED db op Hinv). now left.
  - apply IH. now apply apply_op_invariant.
Qed.

Lemma run_keeps_cancelled (ops : list Op) (db : DB) :
  booking_invariant db -> existsb is_scan ops = false ->
  status_kept STATUS_CANCELLED db (run ops db).
Proof.
  unfold run. revert db. induction ops as [|op ops IH]; intros db Hinv Hops;
    simpl; [apply rows_keep_refl | ].
  simpl in Hops. apply orb_false_iff in Hops. destruct Hops as (Hop & Hops).
  eapply rows_keep_trans.
  - apply (apply_op_keeps STATUS_CANCELLED db op Hinv). now right.
  - apply IH; [now apply apply_op_invariant | exact Hops].
Qed.

Lemma kept_status_is_the_status (st : BookingStatus) (db db' : DB) (b : Booking) :
  booking_invariant db' -> status_kept st db db' ->
  In b (bookings db) -> status b = st ->
  (exists b', In b' (bookings db') /\ id b' = id b)
  /\ (forall b', In b' (bookings db') -> id b' = id b -> status b' = st).
Proof.
  intros Hinv' Hkept Hb Hst.
  destruct (Hkept b Hb Hst) as (b1 & Hb1 & Hid1 & Hst1).
  split; [eauto | ].
  intros b' Hb' Hid'.
  assert (b' = b1).
  { apply (same_id_same_row (bookings db')); auto; [apply Hinv' | congruence]. }
  congruence.
Qed.

(** COMPLETED is terminal: whatever operations follow, a completed booking
    of a well-formed database is still in the table, under its key, and
    completed. *)
Theorem completed_is_terminal (db : DB) (ops : list Op) (b : Booking) :
  well_formed db -> no_double_booking db ->
  In b (bookings db) -> status b = STATUS_COMPLETED ->
  (exists b', In b' (bookings (run ops db)) /\ id b' = id b)
  /\ (forall b', In b' (bookings (run ops db)) -> id b' = id b ->
        status b' = STATUS_COMPLETED).
Proof.
  intros Hwf Hno. apply kept_status_is_the_status.
  - apply run_invariant. now split.
  - apply run_keeps_completed. now split.
Qed.

Lemma completed_is_terminal_witness :
  let db := run Scenario.scanned_in_and_out Scenario.empty in
  map status (bookings db) = [STATUS_COMPLETED]
  /\ (exists b', In b' (bookings (run Scenario.afterwards db)) /\ id b' = 1)
  /\ (forall b', In b' (bookings (run Scenario.afterwards db)) -> id b' = 1 ->
        status b' = STATUS_COMPLETED).
Proof.
  cbv zeta. split; [vm_compute; reflexivity | ].
  assert (Hinv : booking_invariant
                   (run Scenario.scanned_in_and_out Scenario.empty)).
  { apply run_invariant. split; [split; [apply NoDup_nil | split] | ].
    - intros b [].
    - intros b [].
    - intros a b []. }
  destruct (bookings (run Scenario.scanned_in_and_out Scenario.empty))
    as [|b bs] eqn:Hrows; [vm_compute in Hrows; discriminate | ].
  assert (Hb : id b = 1 /\ status b = STATUS_COMPLETED).
  { vm_compute in Hrows. inversion Hrows; subst. split; reflexivity. }
  destruct Hb as (Hid & Hst). rewrite <- Hid.
  apply (completed_is_terminal
           (run Scenario.scanned_in_and_out Scenario.empty)
           Scenario.afterwards b);
    [apply Hinv | apply Hinv | rewrite Hrows; now left | exact Hst].
Defined.

(** CANCELLED is terminal for every operation but the scan: as long as no
    scan follows, a cancelled booking of a well-formed database is still in
    the table, under its key, and cancelled. *)
Theorem cancelled_is_terminal_but_for_scans
    (db : DB) (ops : list Op) (b : Booking) :
  well_formed db -> no_double_booking db ->
  existsb is_scan ops = false ->
  In b (bookings db) -> status b = STATUS_CANCELLED ->
  (exists b', In b' (bookings (run ops db)) /\ id b' = id b)
  /\ (forall b', In b' (bookings (run ops db)) -> id b' = id b ->
        status b' = STATUS_CANCELLED).
Proof.
  intros Hwf Hno Hops. apply kept_status_is_the_status.
  - apply run_invariant. now split.
  - apply run_keeps_cancelled; [now split | exact Hops].
Qed.

Lemma cancelled_is_terminal_but_for_scans_witness :
  map status (bookings Scenario.reclaimed) = [STATUS_CANCELLED]
  /\ (exists b',
         In b' (bookings (run Scenario.no_scan Scenario.reclaimed))
         /\ id b' = 1)
  /\ (forall b',
         In b' (bookings (run Scenario.no_scan Scenario.reclaimed)) ->
         id b' = 1 -> status b' = STATUS_CANCELLED).
Proof.
  split; [vm_compute; reflexivity | ].
  destruct (bookings Scenario.reclaimed) as [|b bs] eqn:Hrows;
    [vm_compute in Hrows; discriminate | ].
  assert (Hb : id b = 1 /\ status b = STATUS_CANCELLED /\ bs = []).
  { vm_compute in Hrows. inversion Hrows; subst. repeat split. }
  destruct Hb as (Hid & Hst & ->). rewrite <- Hid.
  apply (cancelled_is_terminal_but_for_scans Scenario.reclaimed
           Scenario.no_scan b).
  - unfold well_formed. rewrite Hrows. split; [ | split].
    + simpl. repeat constructor. intros [].
    + intros r [<- | []]. rewrite Hid. vm_compute. discriminate.
    + intros r [<- | []]. rewrite Hst. discriminate.
  - unfold no_double_booking. rewrite Hrows.
    intros x y [<- | []] [<- | []] Hne. now elim Hne.
  - reflexivity.
  - rewrite Hrows. now left.
  - exact Hst.
Defined.

(** ** The expiry sweep *)

Lemma fold_update_is_one_pass (write : Booking -> Booking) (l : list Booking)
    (db : DB) :
  (forall r, id (write r) = id r /\ write (write r) = write r) ->
  bookings (fold_left (fun db' b => update_booking db' (id b) write) l db)
  = map (fun r => if existsb (fun b => id b =? id r) l then write r else r)
        (bookings db).
Proof.
  intros Hw. revert db. induction l as [|b l IH]; intros db; simpl.
  - symmetry. apply map_id.
  - rewrite IH. simpl. rewrite map_map. apply map_ext. intros r.
    rewrite (Z.eqb_sym (id b) (id r)).
    destruct (id r =? id b) eqn:E; simpl.
    + destruct (Hw r) as (Hid & Hidem). rewrite Hid.
      destruct (existsb _ l); [exact Hidem | reflexivity].
    + reflexivity.
Qed.

(** With unique keys, the expiry sweep cancels every booking that waits for
    its payment past its reservation expiry and leaves every other booking
    as it was. *)
Theorem expiry_sweep_cancels_the_expired (db : DB) (now : datetime) :
  unique_booking_ids db ->
  bookings (snd (cleanup_reservations.handle db now))
  = map (fun r => if cleanup_reservations.expired now r
                  then set_status STATUS_CANCELLED r else r)
        (bookings db).
Proof.
  intros Hids. unfold cleanup_reservations.handle. simpl.
  rewrite fold_update_is_one_pass by (intros r; split; reflexivity).
  apply map_ext_in. intros r Hr.
  destruct (cleanup_reservations.expired now r) eqn:Hexp.
  - replace (existsb _ _) with true; [reflexivity | ].
    symmetry. apply existsb_exists. exists r.
    split; [apply filter_In; auto | apply Z.eqb_refl].
  - replace (existsb _ _) with false; [reflexivity | ].
    symmetry. apply not_true_is_false. intros H.
    apply existsb_exists in H. destruct H as (b & Hb & Hid).
    apply filter_In in Hb. destruct Hb as (Hb & Hbexp).
    apply Z.eqb_eq in Hid.
    assert (b = r) by now apply (same_id_same_row (bookings db)).
    congruence.
Qed.

Lemma expiry_sweep_cancels_the_expired_witness :
  map status (bookings Scenario.reclaimed) = [STATUS_CANCELLED].
Proof.
  unfold Scenario.reclaimed.
  rewrite expiry_sweep_cancels_the_expired.
  - vm_compute. reflexivity.
  - vm_compute. repeat constructor. intros [].
Defined.

(** ** Refused requests write nothing *)

(** A request that [create_booking] does not answer with its success
    message, and a request that [extend_booking] or [cancel_booking]
    refuses, leaves the database as it was; so does a scan that records
    neither an entry nor an exit. *)
Theorem refused_requests_write_nothing :
  (forall db u m l s e x now,
      fst (create_booking db u m l s e x now)
      <> Redirect SUCCESS MsgBookingCreated ->
      snd (create_booking db u m l s e x now) = db)
  /\ (forall db u m k x,
         refusal (fst (extend_booking db u m k x)) ->
         snd (extend_booking db u m k x) = db)
  /\ (forall db u m k now,
         refusal (fst (cancel_booking db u m k now)) ->
         snd (cancel_booking db u m k now) = db)
  /\ (forall db m code now,
         fst (staff_scan_qr db m code now) <> Redirect INFO MsgEntryRecorded ->
         fst (staff_scan_qr db m code now) <> Redirect INFO MsgExitRecorded ->
         snd (staff_scan_qr db m code now) = db).
Proof.
  split; [ | split; [ | split]].
  - intros db u m l s e x now. unfold create_booking.
    each_path; simpl; intros H; solve [reflexivity | now elim H].
  - intros db u m k x. unfold extend_booking, save_extension, arith.
    each_path; simpl; intros H; solve [reflexivity | now elim H].
  - intros db u m k now _. apply cancel_booking_writes_nothing.
  - intros db m code now. unfold staff_scan_qr.
    each_path; simpl; intros H1 H2;
      solve [reflexivity | now elim H1 | now elim H2].
Qed.

(** ** A booking is its owner's *)

Lemma get_confirmed_booking_of_another_user (db : DB) (k u : Z) (b : Booking) :
  unique_booking_ids db -> In b (bookings db) -> id b = k -> user b <> u ->
  get_confirmed_booking db k u = None.
Proof.
  intros Hids Hb Hk Hu. unfold get_confirmed_booking.
  destruct (find _ _) as [r|] eqn:Hfind; [ | reflexivity].
  apply find_some in Hfind. destruct Hfind as (Hr & Hc).
  rewrite !andb_true_iff, !Z.eqb_eq in Hc. destruct Hc as ((Hid & Hru) & _).
  assert (r = b) by (apply (same_id_same_row (bookings db)); auto; congruence).
  congruence.
Qed.

(** With unique keys, a request to extend or to cancel the booking of
    another user is answered "not found" and writes nothing, whatever the
    method, the status of the booking and the instant. *)
Theorem bookings_of_other_users_are_out_of_reach
    (db : DB) (request_user booking_id : Z) (b : Booking) :
  unique_booking_ids db ->
  In b (bookings db) -> id b = booking_id -> user b <> request_user ->
  (forall method new_exit_str,
      extend_booking db request_user method booking_id new_exit_str
      = (Http404, db))
  /\ (forall method now,
         cancel_booking db request_user method booking_id now = (Http404, db)).
Proof.
  intros Hids Hb Hk Hu.
  pose proof (get_confirmed_booking_of_another_user db _ _ b Hids Hb Hk Hu) as H.
  split; intros; [unfold extend_booking | unfold cancel_booking];
    now rewrite H.
Qed.

Lemma bookings_of_other_users_are_out_of_reach_witness :
  (forall method new_exit_str,
      extend_booking Scenario.booked_9_to_11 8 method 1 new_exit_str
      = (Http404, Scenario.booked_9_to_11))
  /\ (forall method now,
         cancel_booking Scenario.booked_9_to_11 8 method 1 now
         = (Http404, Scenario.booked_9_to_11)).
Proof.
  destruct (bookings Scenario.booked_9_to_11) as [|b bs] eqn:Hrows;
    [vm_compute in Hrows; discriminate | ].
  apply (bookings_of_other_users_are_out_of_reach
           Scenario.booked_9_to_11 8 1 b).
  - unfold unique_booking_ids. rewrite Hrows. vm_compute in Hrows.
    inversion Hrows; subst. simpl. repeat constructor. intros [].
  - rewrite Hrows. now left.
  - vm_compute in Hrows. inversion Hrows; subst. reflexivity.
  - vm_compute in Hrows. inversion Hrows; subst. simpl. discriminate.
Defined.

(** ** What the operations leave in place *)

Lemma appended_refl {A : Type} (l : list A) : appended l l.
Proof. exists []. symmetry. apply app_nil_r. Qed.

Lemma appended_trans {A : Type} (l1 l2 l3 : list A) :
  appended l1 l2 -> appended l2 l3 -> appended l1 l3.
Proof.
  intros (n1 & ->) (n2 & ->). exists (n1 ++ n2). now rewrite app_assoc.
Qed.

Lemma appended_one {A : Type} (l : list A) (x : A) : appended l (l ++ [x]).
Proof. now exists [x]. Qed.

Lemma update_keeps_ids (k : Z) (write : Booking -> Booking) (bs : list Booking) :
  (forall r, id r = k -> id (write r) = k) ->
  map id (map (fun row => if id row =? k then write row else row) bs)
  = map id bs.
Proof.
  intros Hw. rewrite map_map. apply map_ext. intros r.
  destruct (id r =? k) eqn:E; [ | reflexivity].
  apply Z.eqb_eq in E. rewrite (Hw r E). now symmetry.
Qed.

Lemma same_configuration_refl (db : DB) : same_configuration db db.
Proof. repeat split. Qed.

Lemma same_configuration_trans (db1 db2 db3 : DB) :
  same_configuration db1 db2 -> same_configuration db2 db3 ->
  same_configuration db1 db3.
Proof.
  unfold same_configuration. intros (A1 & A2 & A3 & A4 & A5) (B1 & B2 & B3 & B4 & B5).
  repeat split; congruence.
Qed.

Lemma only_grown_refl (db : DB) : only_grown db db.
Proof. repeat split; apply appended_refl. Qed.

Lemma only_grown_trans (db1 db2 db3 : DB) :
  only_grown db1 db2 -> only_grown db2 db3 -> only_grown db1 db3.
Proof.
  unfold only_grown.
  intros (A1 & A2 & A3 & A4 & A5 & A6) (B1 & B2 & B3 & B4 & B5 & B6).
  repeat split; eapply appended_trans; eauto.
Qed.

(** One path of a view: every written table is the old one, or the old one
    with a row at its end; the booking keys stay. *)
Ltac grown_on_path :=
  unfold only_grown; cbn;
  repeat split;
  try rewrite update_keeps_ids
    by (intros ? Hk; first [reflexivity | exact Hk]);
  solve [ apply appended_refl | apply appended_one
        | rewrite map_app; apply appended_one ].

Lemma create_booking_only_grows (db : DB) u m l s e x now :
  only_grown db (snd (create_booking db u m l s e x now)).
Proof.
  unfold create_booking. each_path; try apply only_grown_refl.
  unfold only_grown; cbn. repeat split;
    try solve [apply appended_refl | apply appended_one].
  rewrite update_keeps_ids by (intros; reflexivity).
  rewrite map_app. apply appended_one.
Qed.

Lemma extend_booking_only_grows (db : DB) u m k x :
  only_grown db (snd (extend_booking db u m k x)).
Proof.
  unfold extend_booking, save_extension, arith.
  each_path; try apply only_grown_refl; grown_on_path.
Qed.

Lemma cancel_booking_only_grows (db : DB) u m k now :
  only_grown db (snd (cancel_booking db u m k now)).
Proof.
  rewrite cancel_booking_writes_nothing. apply only_grown_refl.
Qed.

Lemma staff_scan_qr_only_grows (db : DB) m code now :
  only_grown db (snd (staff_scan_qr db m code now)).
Proof.
  unfold staff_scan_qr. each_path; try apply only_grown_refl; grown_on_path.
Qed.

Lemma update_booking_only_grows (db : DB) (k : Z) (write : Booking -> Booking) :
  (forall r, id (write r) = id r) ->
  only_grown db (update_booking db k write).
Proof.
  intros Hw. unfold only_grown; cbn. repeat split; try apply appended_refl.
  rewrite update_keeps_ids; [apply appended_refl | ].
  intros r <-. apply Hw.
Qed.

Lemma expiry_sweep_only_grows (db : DB) (now : datetime) :
  only_grown db (snd (cleanup_reservations.handle db now)).
Proof.
  unfold cleanup_reservations.handle. simpl.
  generalize (filter (cleanup_reservations.expired now) (bookings db)).
  intros l. revert db. induction l as [|b l IH]; intros db; simpl;
    [apply only_grown_refl | ].
  eapply only_grown_trans; [ | apply IH].
  apply update_booking_only_grows. reflexivity.
Qed.

Lemma fold_remind_only_grows (l : list Booking) (db : DB) :
  only_grown db (fold_left remind l db).
Proof.
  revert db. induction l as [|b l IH]; intros db; simpl;
    [apply only_grown_refl | ].
  eapply only_grown_trans; [ | apply IH].
  unfold only_grown; cbn.
  repeat split; solve [apply appended_refl | apply appended_one].
Qed.

Lemma fine_overtime_only_grows (l : list Booking) (db : DB) :
  only_grown db (snd (fine_overtime l db)).
Proof.
  revert db. induction l as [|b l IH]; intros db; simpl;
    [apply only_grown_refl | ].
  destruct (has_unpaid_fine db b); [apply IH | ].
  destruct (get_location db (location b)); [ | apply only_grown_refl].
  eapply only_grown_trans; [ | apply IH].
  unfold only_grown; cbn.
  repeat split; solve [apply appended_refl | apply appended_one].
Qed.

Lemma apply_op_only_grows (db : DB) (op : Op) : only_grown db (apply_op db op).
Proof.
  destruct op; simpl.
  - apply create_booking_only_grows.
  - apply extend_booking_only_grows.
  - apply cancel_booking_only_grows.
  - apply staff_scan_qr_only_grows.
  - apply expiry_sweep_only_grows.
  - unfold handle. eapply only_grown_trans;
      [apply fold_remind_only_grows | apply fine_overtime_only_grows].
Qed.

(** No operation of the core deletes or rewrites a ledger row, and none
    drops or changes a booking key: after any sequence of operations the
    payments, extensions, fines, notifications and entry/exit logs are the
    old tables with rows added at the end, and so are the booking keys. *)
Theorem core_operations_only_append (db : DB) (ops : list Op) :
  only_grown db (run ops db).
Proof.
  unfold run. revert db. induction ops as [|op ops IH]; intros db; simpl;
    [apply only_grown_refl | ].
  eapply only_grown_trans; [apply apply_op_only_grows | apply IH].
Qed.

Lemma fold_update_same_configuration (write : Booking -> Booking)
    (l : list Booking) (db : DB) :
  same_configuration db
    (fold_left (fun db' b => update_booking db' (id b) write) l db).
Proof.
  revert db. induction l as [|b l IH]; intros db; simpl;
    [apply same_configuration_refl | ].
  eapply same_configuration_trans; [ | apply IH]. repeat split.
Qed.

Lemma fold_remind_same_configuration (l : list Booking) (db : DB) :
  same_configuration db (fold_left remind l db).
Proof.
  revert db. induction l as [|b l IH]; intros db; simpl;
    [apply same_configuration_refl | ].
  eapply same_configuration_trans; [ | apply IH]. repeat split.
Qed.

Lemma fine_overtime_same_configuration (l : list Booking) (db : DB) :
  same_configuration db (snd (fine_overtime l db)).
Proof.
  revert db. induction l as [|b l IH]; intros db; simpl;
    [apply same_configuration_refl | ].
  destruct (has_unpaid_fine db b); [apply IH | ].
  destruct (get_location db (location b)); [ | apply same_configuration_refl].
  eapply same_configuration_trans; [ | apply IH]. repeat split.
Qed.

Lemma apply_op_same_configuration (db : DB) (op : Op) :
  same_configuration db (apply_op db op).
Proof.
  destruct op; simpl.
  - unfold create_booking. each_path; repeat split.
  - unfold extend_booking, save_extension, arith. each_path; repeat split.
  - rewrite cancel_booking_writes_nothing. apply same_configuration_refl.
  - unfold staff_scan_qr. each_path; repeat split.
  - apply fold_update_same_configuration.
  - unfold handle. eapply same_configuration_trans;
      [apply fold_remind_same_configuration
      | apply fine_overtime_same_configuration].
Qed.

(** The operations of the core only read the vehicles, the locations, the
    slots, the pricing rules and the cancellation policies: whatever is
    booked, extended, cancelled, scanned or swept, these tables (the stored
    status of every slot with them) are left as they were. *)
Theorem core_operations_keep_the_configuration (db : DB) (ops : list Op) :
  same_configuration db (run ops db).
Proof.
  unfold run. revert db. induction ops as [|op ops IH]; intros db; simpl;
    [apply same_configuration_refl | ].
  eapply same_configuration_trans; [apply apply_op_same_configuration | apply IH].
Qed.

(** ** The life of a booking *)

Lemma rows_after_write (P : Booking -> Prop) (f : Booking -> Booking)
    (bs : list Booking) :
  (forall r, In r bs -> P r -> P (f r)) ->
  (forall b, In b bs -> P b) ->
  forall b, In b (map f bs) -> P b.
Proof.
  intros Hf Hall b Hb. apply in_map_iff in Hb.
  destruct Hb as (r & <- & Hr). auto.
Qed.

Lemma rows_after_update (P : Booking -> Prop) (k : Z)
    (write : Booking -> Booking) (bs : list Booking) :
  (forall r, In r bs -> P r -> P (write r)) ->
  (forall b, In b bs -> P b) ->
  forall b,
    In b (map (fun row => if id row =? k then write row else row) bs) -> P b.
Proof.
  intros Hw. apply rows_after_write. intros r Hr HP.
  destruct (id r =? k); auto.
Qed.

Lemma rows_after_create (P : Booking -> Prop) (k : Z) (pending confirmed : Booking)
    (bs : list Booking) :
  P confirmed -> id pending = k ->
  (forall b, In b bs -> P b) ->
  forall b,
    In b (map (fun row => if id row =? k then confirmed else row)
              (bs ++ [pending])) -> P b.
Proof.
  intros Hc Hk Hall b Hb. apply in_map_iff in Hb.
  destruct Hb as (r & <- & Hr).
  destruct (id r =? k) eqn:E; [exact Hc | ].
  apply in_app_iff in Hr. destruct Hr as [Hr | [<- | []]]; [auto | ].
  apply Z.eqb_neq in E. contradiction.
Qed.

Lemma fold_update_rows (P : Booking -> Prop) (write : Booking -> Booking)
    (l : list Booking) (db : DB) :
  (forall r, P r -> P (write r)) ->
  (forall b, In b (bookings db) -> P b) ->
  forall b,
    In b (bookings (fold_left (fun db' b => update_booking db' (id b) write)
                              l db)) -> P b.
Proof.
  intros Hw. revert db. induction l as [|x l IH]; intros db Hall; simpl;
    [exact Hall | ].
  apply IH. simpl. apply rows_after_update; auto.
Qed.

Lemma overtime_sweep_keeps_bookings (db : DB) (now : datetime) :
  bookings (snd (handle db now)) = bookings db.
Proof.
  unfold handle.
  match goal with |- context [fine_overtime ?l ?d] =>
    destruct (fine_overtime_frame l d) as (-> & _) end.
  apply fold_remind_frame.
Qed.

Lemma apply_op_settled (db : DB) (op : Op) :
  settled db -> settled (apply_op db op).
Proof.
  intros Hs. unfold settled in *. destruct op; simpl.
  - unfold create_booking. each_path; try exact Hs. cbn.
    apply rows_after_create; [simpl; tauto | reflexivity | exact Hs].
  - rewrite (proj1 (extend_booking_keeps_bookings _ _ _ _ _)). exact Hs.
  - rewrite cancel_booking_writes_nothing. exact Hs.
  - unfold staff_scan_qr. each_path; try exact Hs; cbn;
      (apply rows_after_update; [ | exact Hs]); intros r _ (Hst & Hr);
      simpl; tauto.
  - apply fold_update_rows; [ | exact Hs]. intros r (_ & Hr). simpl. tauto.
  - rewrite overtime_sweep_keeps_bookings. exact Hs.
Qed.

Lemma filter_nothing {A : Type} (keep : A -> bool) (l : list A) :
  (forall x, In x l -> keep x = false) -> filter keep l = [].
Proof.
  induction l as [|a l IH]; simpl; intros H; [reflexivity | ].
  rewrite (H a (or_introl eq_refl)). apply IH. intros x Hx. apply H. now right.
Qed.

Lemma expiry_sweep_of_settled (db : DB) (now : datetime) :
  settled db -> cleanup_reservations.handle db now = (Done, db).
Proof.
  intros Hs. unfold cleanup_reservations.handle.
  rewrite filter_nothing; [reflexivity | ].
  intros b Hb. destruct (Hs b Hb) as (_ & Hexp).
  unfold cleanup_reservations.expired. rewrite Hexp. apply andb_false_r.
Qed.

(** The payment of a booking is taken as the booking is created: from a
    database whose bookings are all confirmed, cancelled or completed and
    hold no reservation (an empty one in particular), no sequence of
    operations ever leaves a booking waiting for its payment, marked as a
    no-show or holding a reservation; and on such a database the expiry
    sweep finds nothing to cancel and writes nothing. *)
Theorem bookings_never_wait_for_payment :
  (forall db ops, settled db -> settled (run ops db))
  /\ (forall db ops now,
         settled db ->
         cleanup_reservations.handle (run ops db) now = (Done, run ops db)).
Proof.
  assert (Hrun : forall ops db, settled db -> settled (run ops db)).
  { unfold run. induction ops as [|op ops IH]; intros db Hs; simpl;
      [exact Hs | ].
    apply IH. now apply apply_op_settled. }
  split.
  - intros db ops. apply Hrun.
  - intros db ops now Hs. apply expiry_sweep_of_settled. now apply Hrun.
Qed.

Lemma bookings_never_wait_for_payment_witness :
  settled (run Scenario.busy_morning Scenario.empty)
  /\ cleanup_reservations.handle
       (run Scenario.busy_morning Scenario.empty)
       (Scenario.at_clock 9 0 0)
     = (Done, run Scenario.busy_morning Scenario.empty).
Proof.
  destruct bookings_never_wait_for_payment as (H1 & H2).
  split; [apply H1 | apply H2]; intros b [].
Defined.

Lemma apply_op_confirmed_are_paid (db : DB) (op : Op) :
  confirmed_are_paid db -> confirmed_are_paid (apply_op db op).
Proof.
  intros Hp. unfold confirmed_are_paid in *.
  pose (P := fun b : Booking =>
               status b = STATUS_CONFIRMED -> amount_paid b = amount_expected b).
  destruct op; simpl.
  - unfold create_booking. each_path; try exact Hp. cbn.
    apply (rows_after_create P);
      [unfold P; reflexivity | reflexivity | exact Hp].
  - rewrite (proj1 (extend_booking_keeps_bookings _ _ _ _ _)). exact Hp.
  - rewrite cancel_booking_writes_nothing. exact Hp.
  - unfold staff_scan_qr. each_path; try exact Hp; cbn;
      (apply (rows_after_update P); [ | exact Hp]); intros r _ Hr; unfold P;
      simpl; solve [exact Hr | discriminate].
  - apply (fold_update_rows P); [ | exact Hp]. intros r _. unfold P. simpl.
    discriminate.
  - rewrite overtime_sweep_keeps_bookings. exact Hp.
Qed.

(** A confirmed booking has always paid exactly the amount expected of it:
    the property holds of a database without bookings and every operation
    keeps it.  A booking is confirmed with its fee in both columns, and no
    other operation writes either column of a confirmed booking: a scan
    and the sweeps leave the amounts alone, a cancellation writes nothing
    and an extension stops before it saves the booking. *)
Theorem confirmed_bookings_are_paid_in_full (db : DB) (ops : list Op) :
  confirmed_are_paid db -> confirmed_are_paid (run ops db).
Proof.
  unfold run. revert db. induction ops as [|op ops IH]; intros db Hp; simpl;
    [exact Hp | ].
  apply IH. now apply apply_op_confirmed_are_paid.
Qed.

Lemma confirmed_bookings_are_paid_in_full_witness :
  confirmed_are_paid (run Scenario.busy_morning Scenario.empty)
  /\ map status (bookings (run Scenario.busy_morning Scenario.empty))
     = [STATUS_CONFIRMED; STATUS_CONFIRMED]
  /\ Forall2 Qeq
       (map amount_paid (bookings (run Scenario.busy_morning Scenario.empty)))
       [200%Q; 100%Q]
  /\ Forall2 Qeq
       (map amount_expected
            (bookings (run Scenario.busy_morning Scenario.empty)))
       [200%Q; 100%Q].
Proof.
  split; [ | split; [ | split]].
  - apply confirmed_bookings_are_paid_in_full. intros b [].
  - vm_compute. reflexivity.
  - vm_compute. repeat constructor.
  - vm_compute. repeat constructor.
Defined.

Lemma rows_after_update_of (P : Booking -> Prop) (booking : Booking)
    (write : Booking -> Booking) (bs : list Booking) :
  NoDup (map id bs) -> In booking bs ->
  (P booking -> P (write booking)) ->
  (forall b, In b bs -> P b) ->
  forall b,
    In b (map (fun row => if id row =? id booking then write row else row) bs)
    -> P b.
Proof.
  intros Hnd Hin Hw. apply rows_after_write. intros r Hr HP.
  destruct (id r =? id booking) eqn:E; [ | exact HP].
  apply Z.eqb_eq in E.
  assert (r = booking) by now apply (same_id_same_row bs).
  subst r. auto.
Qed.

Lemma get_booking_Some (db : DB) (k : Z) (b : Booking) :
  get_booking db k = Some b -> In b (bookings db) /\ id b = k.
Proof.
  unfold get_booking. intros H. apply find_some in H.
  destruct H as (Hin & Hid). apply Z.eqb_eq in Hid. auto.
Qed.

Lemma apply_op_scans_consistent (db : DB) (op : Op) :
  booking_invariant db -> settled db ->
  scans_consistent db -> scans_consistent (apply_op db op).
Proof.
  intros Hinv Hs Hc. unfold scans_consistent in *.
  assert (Hnd : NoDup (map id (bookings db))) by apply Hinv.
  pose (P := fun b : Booking =>
               (actual_exit_datetime b <> None -> actual_entry_datetime b <> None)
               /\ (status b = STATUS_COMPLETED <-> actual_exit_datetime b <> None)).
  destruct op; cbn [apply_op].
  - unfold create_booking. each_path; try exact Hc. cbn.
    apply (rows_after_create P); [ | reflexivity | exact Hc].
    unfold P; simpl. split; [congruence | split; [discriminate | congruence]].
  - rewrite (proj1 (extend_booking_keeps_bookings _ _ _ _ _)). exact Hc.
  - rewrite cancel_booking_writes_nothing. exact Hc.
  - unfold staff_scan_qr.
    destruct method; [exact Hc | ].
    destruct code as [k|]; [ | exact Hc].
    destruct (get_booking db k) as [booking|] eqn:Hget; [ | exact Hc].
    apply get_booking_Some in Hget. destruct Hget as (Hin & _).
    destruct (actual_entry_datetime booking) as [t|] eqn:Hentry.
    + destruct (actual_exit_datetime booking) eqn:Hexit; [exact Hc | ]. cbn.
      apply (rows_after_update_of P booking); [exact Hnd | exact Hin | | exact Hc].
      unfold P; simpl. intros _. rewrite Hentry.
      split; [congruence | split; [congruence | reflexivity]].
    + cbn.
      apply (rows_after_update_of P booking); [exact Hnd | exact Hin | | exact Hc].
      unfold P; simpl. intros (H1 & H2).
      split; [congruence | exact H2].
  - rewrite (expiry_sweep_of_settled db now Hs). exact Hc.
  - rewrite overtime_sweep_keeps_bookings. exact Hc.
Qed.

(** From a well-formed database whose bookings are settled and whose scan
    columns agree with the statuses (a database without bookings in
    particular), every sequence of operations leads to a database where an
    exit is recorded only for a booking whose entry is recorded, and where
    the completed bookings are exactly those with a recorded exit. *)
Theorem completed_means_scanned_out (db : DB) (ops : list Op) :
  well_formed db -> no_double_booking db -> settled db ->
  scans_consistent db -> scans_consistent (run ops db).
Proof.
  intros Hwf Hno. assert (Hinv : booking_invariant db) by now split.
  clear Hwf Hno. unfold run. revert db Hinv.
  induction ops as [|op ops IH]; intros db Hinv Hs Hc; simpl; [exact Hc | ].
  apply IH.
  - now apply apply_op_invariant.
  - now apply apply_op_settled.
  - now apply apply_op_scans_consistent.
Qed.

Lemma completed_means_scanned_out_witness :
  scans_consistent
    (run (Scenario.scanned_in_and_out ++ Scenario.afterwards) Scenario.empty)
  /\ map status
         (bookings (run (Scenario.scanned_in_and_out ++ Scenario.afterwards)
                        Scenario.empty))
     = [STATUS_COMPLETED].
Proof.
  split.
  - apply completed_means_scanned_out.
    + split; [apply NoDup_nil | split]; intros b [].
    + intros a b [].
    + intros b [].
    + intros b [].
  - vm_compute. reflexivity.
Defined.

(** ** Extensions: the conflict test *)

(** For a confirmed booking of the user and a new exit that is posted with
    a UTC offset and lies after the current exit, the extension is refused
    as a conflict exactly when another confirmed booking of the slot starts
    before the new exit and ends after the current exit.  A new exit posted
    without offset is never tested: comparing it with the current exit
    raises [TypeError], conflict or not. *)
Theorem extend_booking_rejects_iff
    (db : DB) (request_user booking_id : Z) (new_exit : datetime)
    (utcoffset : timedelta) (booking : Booking) :
  get_confirmed_booking db booking_id request_user = Some booking ->
  exit_datetime_expected booking < new_exit ->
  (fst (extend_booking db request_user POST booking_id
                       (Aware new_exit utcoffset))
   = Redirect ERROR MsgSlotNotAvailableForExtension
   <-> exists b, In b (bookings db) /\ id b <> id booking
                 /\ conflicts_with (slot booking)
                      (exit_datetime_expected booking) new_exit b)
  /\ (forall wall,
         extend_booking db request_user POST booking_id (Naive wall)
         = (Raised TypeError, db)).
Proof.
  intros Hget Hlater.
  split; [ | intros wall; unfold extend_booking; now rewrite Hget].
  unfold extend_booking, save_extension, arith. rewrite Hget.
  replace (new_exit <=? exit_datetime_expected booking) with false
    by (symmetry; apply Z.leb_gt; lia).
  destruct (existsb _ (bookings db)) eqn:E.
  - apply existsb_exists in E. destruct E as (b & Hb & Hov).
    apply andb_true_iff in Hov. destruct Hov as (Hov & Hne).
    apply overlaps_iff in Hov. apply negb_true_iff, Z.eqb_neq in Hne.
    simpl. split; [eauto | reflexivity].
  - assert (Hnone : ~ exists b, In b (bookings db) /\ id b <> id booking
                       /\ conflicts_with (slot booking)
                            (exit_datetime_expected booking) new_exit b).
    { intros (b & Hb & Hne & Hcf). apply overlaps_iff in Hcf.
      apply not_true_iff_false in E. apply E. apply existsb_exists.
      exists b. split; [exact Hb | ]. rewrite Hcf. simpl.
      apply negb_true_iff. now apply Z.eqb_neq. }
    unfold create_payment.
    destruct (get_location db (location booking)); simpl; split;
      solve [discriminate | intros H; now elim Hnone].
Qed.

Lemma extend_booking_rejects_iff_witness :
  exists booking,
    get_confirmed_booking two_bookings 1 Scenario.alice = Some booking
    /\ fst (extend_booking two_bookings Scenario.alice POST 1
              (Aware (Scenario.at_clock Scenario.monday 11 30)
                     local_utcoffset))
       = Redirect ERROR MsgSlotNotAvailableForExtension
    /\ extend_booking two_bookings Scenario.alice POST 1
         (Naive (Scenario.at_clock Scenario.monday 11 30))
       = (Raised TypeError, two_bookings).
Proof.
  eexists. split; [vm_compute; reflexivity | ].
  assert (Hlater : Scenario.at_clock Scenario.monday 11 0
                   < Scenario.at_clock Scenario.monday 11 30)
    by (vm_compute; reflexivity).
  destruct (extend_booking_rejects_iff two_bookings Scenario.alice 1
              (Scenario.at_clock Scenario.monday 11 30) local_utcoffset
              _ eq_refl Hlater) as (Hiff & Hnaive).
  split; [ | apply Hnaive].
  apply Hiff.
  eexists. split; [right; left; vm_compute; reflexivity | ].
  split; [vm_compute; discriminate | ].
  vm_compute. repeat split.
Defined.

(** ** Pricing rules: the clock *)

Lemma weekday_next_week (t : datetime) :
  weekday (t + 7 * us_per_day) = weekday t.
Proof.
  unfold weekday. rewrite Z.div_add by (vm_compute; discriminate).
  replace (t / us_per_day + 7 + 3) with (t / us_per_day + 3 + 1 * 7) by lia.
  now rewrite Z.mod_add by discriminate.
Qed.

Lemma time_of_next_week (t : datetime) :
  time_of (t + 7 * us_per_day) = time_of t.
Proof.
  unfold time_of. now rewrite Z.mod_add by (vm_compute; discriminate).
Qed.

(** Pricing is weekly: the multiplier of a location at an instant is its
    multiplier one week later. *)
Theorem pricing_multiplier_is_weekly (db : DB) (location_ : Z) (t : datetime) :
  pricing_multiplier db location_ (t + 7 * us_per_day)
  = pricing_multiplier db location_ t.
Proof.
  unfold pricing_multiplier, rules_for.
  now rewrite weekday_next_week, time_of_next_week.
Qed.

Lemma multiplier_loop_skips (t : time) (keep : DynamicPricingRule -> bool)
    (rules : list DynamicPricingRule) (m0 : Q) :
  (forall r, keep r = false ->
             (start_time r <=? t) && (t <=? end_time r) = false) ->
  fold_left
    (fun m rule =>
       if (start_time rule <=? t) && (t <=? end_time rule)
       then Py.max m (multiplier rule) else m)
    (filter keep rules) m0
  = fold_left
      (fun m rule =>
         if (start_time rule <=? t) && (t <=? end_time rule)
         then Py.max m (multiplier rule) else m)
      rules m0.
Proof.
  intros Hskip. revert m0. induction rules as [|r rules IH]; intros m0; simpl;
    [reflexivity | ].
  destruct (keep r) eqn:E; simpl; [apply IH | ].
  rewrite (Hskip r E). apply IH.
Qed.

(** A rule whose window ends before it starts (22:00 to 02:00, say) never
    applies: the prices are those of the database without such rules. *)
Theorem rules_across_midnight_never_apply
    (db db' : DB) (location_ : Z) (t : datetime) :
  pricing_rules db'
  = filter (fun r => start_time r <=? end_time r) (pricing_rules db) ->
  pricing_multiplier db' location_ t = pricing_multiplier db location_ t.
Proof.
  intros Hrules. unfold pricing_multiplier, rules_for. rewrite Hrules.
  set (scoped := fun r => col_eqb (rule_location r) location_
                          && col_eqb (day_of_week r) (weekday t)).
  set (ordered := fun r : DynamicPricingRule => start_time r <=? end_time r).
  rewrite <- (multiplier_loop_skips (time_of t) ordered
                (filter scoped (pricing_rules db)) 1%Q).
  - rewrite !filter_filter. f_equal. apply filter_ext. intros r.
    apply andb_comm.
  - intros r Hr. unfold ordered in Hr. apply Z.leb_gt in Hr.
    destruct (start_time r <=? time_of t) eqn:E1; [ | reflexivity].
    destruct (time_of t <=? end_time r) eqn:E2; [ | reflexivity].
    apply Z.leb_le in E1, E2. lia.
Qed.

Lemma rules_across_midnight_never_apply_witness :
  pricing_multiplier (Scenario.with_rules Scenario.empty []) 1
    (Scenario.at_clock Scenario.monday 23 0)
  = pricing_multiplier
      (Scenario.with_rules Scenario.empty [night_rule]) 1
      (Scenario.at_clock Scenario.monday 23 0).
Proof.
  apply rules_across_midnight_never_apply. vm_compute. reflexivity.
Defined.

(** ** Booked hours and the hourly fee *)

Lemma round_is_nearest (x : Q) :
  (x - (1 # 2) <= inject_Z (Py.round x))%Q
  /\ (inject_Z (Py.round x) <= x + (1 # 2))%Q.
Proof.
  unfold Py.round.
  pose proof (Qfloor_le x) as Hlo. pose proof (Qlt_floor x) as Hhi.
  assert (Hnext : (inject_Z (Qfloor x + 1) == inject_Z (Qfloor x) + 1)%Q)
    by (rewrite inject_Z_plus; reflexivity).
  rewrite Hnext in Hhi.
  destruct (x - inject_Z (Qfloor x) ?= 1 # 2)%Q eqn:E.
  - apply Qeq_alt in E.
    destruct (Z.even (Qfloor x)); [ | rewrite Hnext]; split; lra.
  - apply Qlt_alt in E. split; lra.
  - apply Qgt_alt in E. rewrite Hnext. split; lra.
Qed.

(** The hours booked are the hundredth nearest to the value of the float
    that the quotient gives, so within 0.005 of it.  In the middle between
    two hundredths it is that float which decides, not the length of the
    window: a window of 18 seconds (0.005 hour) is booked as 0.01 hour and
    one of 90 seconds (0.025) as 0.03, their floats lying above the middle;
    one of 54 seconds (0.015) as 0.01, its float lying below; and one of
    450 seconds, whose 0.125 hour is exact in binary, as 0.12, the even
    neighbour.  The 18 seconds cost a hundredth of the hourly rate. *)
Theorem booked_hours_are_the_nearest_hundredth :
  (forall x : float,
      (float_value x - (1 # 200) <= Py.round2 x)%Q
      /\ (Py.round2 x <= float_value x + (1 # 200))%Q)
  /\ ((1 # 200) < float_value (hours_of (18 * us_per_second)%Z))%Q
  /\ (Py.round2 (hours_of (18 * us_per_second)%Z) == 1 # 100)%Q
  /\ (float_value (hours_of (54 * us_per_second)%Z) < 3 # 200)%Q
  /\ (Py.round2 (hours_of (54 * us_per_second)%Z) == 1 # 100)%Q
  /\ (Py.round2 (hours_of (90 * us_per_second)%Z) == 3 # 100)%Q
  /\ (float_value (hours_of (450 * us_per_second)%Z) == 1 # 8)%Q
  /\ (Py.round2 (hours_of (450 * us_per_second)%Z) == 12 # 100)%Q
  /\ (booking_fee Scenario.car_park
        (Py.round2 (hours_of (18 * us_per_second)%Z)) 1 == 1)%Q.
Proof.
  split.
  - intros x. unfold Py.round2.
    destruct (round_is_nearest (float_value x * 100)) as (Hlo & Hhi).
    split.
    + apply Qle_shift_div_l; lra.
    + apply Qle_shift_div_r; lra.
  - repeat split; vm_compute; reflexivity.
Qed.

(** Under eight booked hours the fee is hours times hourly rate times the
    multiplier of the entry, and the multiplier is never below 1.0: a
    pricing rule can raise the fee of such a booking above the base fee but
    never lower it. *)
Theorem hourly_fee_is_at_least_the_base_fee
    (db : DB) (loc : ParkingLocation) (duration : Q) (entry : datetime) :
  (0 <= duration)%Q -> (duration < 8)%Q -> (0 <= base_rate_per_hour loc)%Q ->
  (booking_fee loc duration (pricing_multiplier db (location_id loc) entry)
   == duration * base_rate_per_hour loc
      * pricing_multiplier db (location_id loc) entry)%Q
  /\ (duration * base_rate_per_hour loc
      <= booking_fee loc duration
           (pricing_multiplier db (location_id loc) entry))%Q.
Proof.
  intros Hd H8 Hrate.
  assert (Hm : (1 <= pricing_multiplier db (location_id loc) entry)%Q)
    by apply (multiplier_loop_is_max (time_of entry)
                (rules_for db (location_id loc) entry) 1%Q).
  set (m := pricing_multiplier db (location_id loc) entry) in *.
  assert (Hfee : (booking_fee loc duration m
                  == duration * base_rate_per_hour loc * m)%Q).
  { unfold booking_fee.
    replace (Qle_bool 8 duration) with false; [ring | ].
    symmetry. apply not_true_iff_false. rewrite Qle_bool_iff. lra. }
  split; [exact Hfee | ]. rewrite Hfee.
  assert (H0 : (0 <= duration * base_rate_per_hour loc)%Q)
    by now apply Qmult_le_0_compat.
  assert (H1 : (0 <= duration * base_rate_per_hour loc * (m - 1))%Q)
    by (apply Qmult_le_0_compat; [exact H0 | lra]).
  lra.
Qed.

Lemma hourly_fee_is_at_least_the_base_fee_witness :
  (booking_fee Scenario.car_park 2
     (pricing_multiplier
        (Scenario.with_rules Scenario.empty [Scenario.monday_rule])
        (location_id Scenario.car_park)
        (Scenario.at_clock Scenario.monday 9 30))
   == 2 * base_rate_per_hour Scenario.car_park
      * pricing_multiplier
          (Scenario.with_rules Scenario.empty [Scenario.monday_rule])
          (location_id Scenario.car_park)
          (Scenario.at_clock Scenario.monday 9 30))%Q
  /\ (2 * base_rate_per_hour Scenario.car_park
      <= booking_fee Scenario.car_park 2
           (pricing_multiplier
              (Scenario.with_rules Scenario.empty [Scenario.monday_rule])
              (location_id Scenario.car_park)
              (Scenario.at_clock Scenario.monday 9 30)))%Q.
Proof.
  apply hourly_fee_is_at_least_the_base_fee.
  - vm_compute. discriminate.
  - vm_compute. reflexivity.
  - vm_compute. discriminate.
Defined.

(** ** The notifications of the automation command *)

Lemma fold_remind_notifications (l : list Booking) (db : DB) :
  notifications (fold_left remind l db)
  = notifications db ++ map expiry_reminder l.
Proof.
  revert db. induction l as [|b l IH]; intros db; simpl.
  - symmetry. apply app_nil_r.
  - rewrite IH. simpl. now rewrite <- app_assoc.
Qed.

Lemma fine_overtime_notifications (l : list Booking) (db : DB) :
  NoDup (map id l) ->
  (forall b, In b l -> get_location db (location b) <> None) ->
  notifications (snd (fine_overtime l db))
  = notifications db
    ++ map fine_alert (filter (fun b => negb (has_unpaid_fine db b)) l).
Proof.
  revert db. induction l as [|b l IH]; intros db Hnd Hloc; simpl.
  - symmetry. apply app_nil_r.
  - inversion Hnd as [|? ? Hfresh Hnd']; subst.
    destruct (has_unpaid_fine db b) eqn:Hun; simpl.
    + apply IH; [exact Hnd' | ]. intros b' Hb'. apply Hloc. now right.
    + destruct (get_location db (location b)) as [loc|] eqn:Hb;
        [ | exfalso; now apply (Hloc b (or_introl eq_refl))].
      match goal with |- context [fine_overtime l ?d] => set (db2 := d) end.
      rewrite (IH db2 Hnd').
      * unfold db2 at 1. simpl. rewrite <- app_assoc. simpl.
        f_equal. f_equal. f_equal. apply filter_ext_in. intros b' Hb'.
        rewrite !has_unpaid_fine_existsb. unfold db2. simpl.
        rewrite existsb_app. simpl. unfold unpaid_fine_of at 2. simpl.
        replace (id b =? id b') with false; [now rewrite !orb_false_r | ].
        symmetry. apply Z.eqb_neq. intros E. apply Hfresh.
        rewrite E. now apply in_map.
      * intros b' Hb'. apply Hloc. now right.
Qed.

Lemma overtime_sweep_notifications (db : DB) (now : datetime) :
  unique_booking_ids db -> locations_present db ->
  notifications (snd (handle db now))
  = notifications db
    ++ map expiry_reminder (filter (ending_soon now) (bookings db))
    ++ map fine_alert (filter (due_for_fine db now) (bookings db)).
Proof.
  intros Hids Hlocs. unfold handle.
  destruct (fold_remind_frame (filter (ending_soon now) (bookings db)) db)
    as (Hb1 & Hl1 & Hf1).
  pose proof (fold_remind_notifications
                (filter (ending_soon now) (bookings db)) db) as Hn1.
  set (db1 := fold_left remind (filter (ending_soon now) (bookings db)) db)
    in *.
  assert (Hget : forall k, get_location db1 k = get_location db k)
    by (intros k; unfold get_location; now rewrite Hl1).
  assert (Hun : forall b, has_unpaid_fine db1 b = has_unpaid_fine db b)
    by (intros b; rewrite !has_unpaid_fine_existsb; now rewrite Hf1).
  rewrite fine_overtime_notifications.
  - rewrite Hn1, Hb1, filter_filter, <- app_assoc. do 3 f_equal.
    apply filter_ext. intros b. unfold due_for_fine. now rewrite Hun.
  - rewrite Hb1. now apply filter_keeps_unique_ids.
  - intros b Hb. rewrite Hb1 in Hb. apply filter_In in Hb.
    rewrite Hget. now apply Hlocs.
Qed.

Lemma overtime_sweep_leaves_nothing_due (db : DB) (now : datetime) :
  unique_booking_ids db -> locations_present db ->
  filter (due_for_fine (snd (handle db now)) now) (bookings db) = [].
Proof.
  intros Hids Hlocs. apply filter_nothing. intros b Hb.
  unfold due_for_fine. destruct (overtime now b) eqn:Hover; [ | reflexivity].
  simpl. apply negb_false_iff.
  assert (Hfines : fines (snd (handle db now))
                   = fines db
                     ++ map (overtime_fine db)
                            (filter (due_for_fine db now) (bookings db))).
  { unfold handle.
    destruct (fold_remind_frame (filter (ending_soon now) (bookings db)) db)
      as (Hb1 & Hl1 & Hf1).
    set (db1 := fold_left remind (filter (ending_soon now) (bookings db)) db)
      in *.
    assert (Hget : forall k, get_location db1 k = get_location db k)
      by (intros k; unfold get_location; now rewrite Hl1).
    assert (Hun : forall r, has_unpaid_fine db1 r = has_unpaid_fine db r)
      by (intros r; rewrite !has_unpaid_fine_existsb; now rewrite Hf1).
    destruct (fine_overtime_exact (filter (overtime now) (bookings db1)) db1)
      as (_ & Hfines).
    - rewrite Hb1. now apply filter_keeps_unique_ids.
    - intros r Hr. rewrite Hb1 in Hr. apply filter_In in Hr.
      rewrite Hget. now apply Hlocs.
    - rewrite Hfines, Hb1, Hf1, filter_filter.
      f_equal. rewrite (filter_ext _ (due_for_fine db now)).
      + apply map_ext. intros r. unfold overtime_fine. now rewrite Hget.
      + intros r. unfold due_for_fine. now rewrite Hun. }
  rewrite has_unpaid_fine_existsb, Hfines, existsb_app.
  destruct (has_unpaid_fine db b) eqn:Hun.
  - rewrite has_unpaid_fine_existsb in Hun. now rewrite Hun.
  - apply orb_true_iff. right. apply existsb_exists.
    exists (overtime_fine db b). split.
    + apply in_map. apply filter_In. split; [exact Hb | ].
      unfold due_for_fine. now rewrite Hover, Hun.
    + unfold unpaid_fine_of. simpl. now rewrite Z.eqb_refl.
Qed.

(** On a database with unique booking keys and no dangling location, a run
    of the automation command logs one reminder for each confirmed booking
    that ends within the next 30 minutes and one fine alert for each
    booking it fines, and nothing else.  A second run at the same instant
    logs every reminder again, and no fine alert. *)
Theorem automation_reminds_on_every_run (db : DB) (now : datetime) :
  unique_booking_ids db -> locations_present db ->
  notifications (snd (process_parking_automation.handle db now))
  = notifications db
    ++ map expiry_reminder
           (filter (process_parking_automation.ending_soon now) (bookings db))
    ++ map fine_alert (filter (due_for_fine db now) (bookings db))
  /\ notifications
       (snd (process_parking_automation.handle
               (snd (process_parking_automation.handle db now)) now))
     = notifications (snd (process_parking_automation.handle db now))
       ++ map expiry_reminder
              (filter (process_parking_automation.ending_soon now)
                      (bookings db)).
Proof.
  intros Hids Hlocs. split; [now apply overtime_sweep_notifications | ].
  pose proof (overtime_sweep_keeps_bookings db now) as Hb.
  pose proof (apply_op_same_configuration db (OpOvertimeSweep now))
    as (_ & Hl & _).
  simpl in Hl.
  rewrite overtime_sweep_notifications.
  - rewrite Hb, (overtime_sweep_leaves_nothing_due db now Hids Hlocs).
    simpl. now rewrite app_nil_r.
  - unfold unique_booking_ids. now rewrite Hb.
  - intros b Hin. rewrite Hb in Hin. unfold get_location. rewrite Hl.
    now apply Hlocs.
Qed.

Lemma automation_reminds_on_every_run_witness :
  let db := Scenario.booked_9_to_11 in
  let now := Scenario.at_clock Scenario.monday 10 45 in
  notifications (snd (process_parking_automation.handle db now))
  = notifications db
    ++ map expiry_reminder
           (filter (process_parking_automation.ending_soon now) (bookings db))
    ++ map fine_alert (filter (due_for_fine db now) (bookings db))
  /\ notifications
       (snd (process_parking_automation.handle
               (snd (process_parking_automation.handle db now)) now))
     = notifications (snd (process_parking_automation.handle db now))
       ++ map expiry_reminder
              (filter (process_parking_automation.ending_soon now)
                      (bookings db)).
Proof.
  apply automation_reminds_on_every_run.
  - vm_compute. repeat constructor. intros [].
  - intros b [<- | []]. vm_compute. discriminate.
Defined.

(** ** Maintenance, the live view and the booking flow *)

Lemma mark_keeps_slot_keys (now : datetime) (l : list ParkingSlot) (site : Site) :
  exists ss,
    tables (fold_left (ParkingSlotAdmin.mark now) l site)
    = with_slots (tables site) ss
    /\ map slot_key ss = map slot_key (slots (tables site)).
Proof.
  revert site. induction l as [|s l IH]; intros site; simpl.
  - exists (slots (tables site)). split; [now destruct (tables site) | reflexivity].
  - destruct (IH (ParkingSlotAdmin.mark now site s)) as (ss & -> & Hkeys).
    exists ss. split; [reflexivity | ].
    rewrite Hkeys. simpl. rewrite map_map. apply map_ext. intros r.
    now destruct (slot_id r =? slot_id s).
Qed.

Lemma mark_logs (now : datetime) (l : list ParkingSlot) (site : Site) :
  maintenance_logs (fold_left (ParkingSlotAdmin.mark now) l site)
  = maintenance_logs site
    ++ map (fun s => {| maintenance_slot := slot_id s; start_datetime := now;
                        end_datetime := None |}) l.
Proof.
  revert site. induction l as [|s l IH]; intros site; simpl.
  - symmetry. apply app_nil_r.
  - rewrite IH. simpl. now rewrite <- app_assoc.
Qed.

Lemma get_slot_of_same_keys (db : DB) (ss : list ParkingSlot) (k : Z)
    (loc : ParkingLocation) :
  map slot_key ss = map slot_key (slots db) ->
  match get_slot_of (with_slots db ss) k loc, get_slot_of db k loc with
  | Some a, Some b => slot_id a = slot_id b
  | None, None => True
  | _, _ => False
  end.
Proof.
  unfold get_slot_of. simpl. generalize (slots db). clear db.
  induction ss as [|s ss IH]; intros [|r rs] Hkeys; try discriminate; simpl;
    [exact I | ].
  simpl in Hkeys. unfold slot_key at 1 3 in Hkeys.
  injection Hkeys as Hid Hloc Hrest. rewrite Hid, Hloc.
  destruct ((slot_id r =? k) && (slot_location r =? location_id loc));
    [exact Hid | now apply IH].
Qed.

Lemma create_booking_reads_no_slot_status
    (db : DB) (ss : list ParkingSlot) (request_user : Z) (method : Method)
    (location_id_ slot_id_ : Z) (form_entry form_exit : option datetime)
    (now : datetime) :
  map slot_key ss = map slot_key (slots db) ->
  let after := create_booking (with_slots db ss) request_user method
                 location_id_ slot_id_ form_entry form_exit now in
  let before := create_booking db request_user method
                  location_id_ slot_id_ form_entry form_exit now in
  fst after = fst before
  /\ bookings (snd after) = bookings (snd before)
  /\ payments (snd after) = payments (snd before).
Proof.
  intros Hkeys. cbv zeta. unfold create_booking.
  change (get_active_location (with_slots db ss) location_id_)
    with (get_active_location db location_id_).
  destruct (get_active_location db location_id_) as [loc|]; [ | now repeat split].
  pose proof (get_slot_of_same_keys db ss slot_id_ loc Hkeys) as Hslot.
  destruct (get_slot_of (with_slots db ss) slot_id_ loc) as [a|],
           (get_slot_of db slot_id_ loc) as [b|];
    try contradiction; [ | now repeat split].
  rewrite Hslot.
  change (default_vehicle (with_slots db ss) request_user)
    with (default_vehicle db request_user).
  change (bookings (with_slots db ss)) with (bookings db).
  change (pricing_multiplier (with_slots db ss)) with (pricing_multiplier db).
  destruct method; [now repeat split | ].
  destruct (BookingForm_clean form_entry form_exit) as [[entry exit_]|];
    [ | now repeat split].
  destruct (existsb (overlaps (slot_id b) entry exit_) (bookings db));
    [now repeat split | ].
  destruct (default_vehicle db request_user); now repeat split.
Qed.

(** Marking slots as under maintenance does not keep anyone from booking
    them: the booking view answers every request as it did before the
    action and writes the same booking and payment rows. *)
Theorem maintenance_does_not_block_booking
    (site : Site) (selected : list Z) (since : datetime)
    (request_user : Z) (method : Method) (location_id_ slot_id_ : Z)
    (form_entry form_exit : option datetime) (now : datetime) :
  let marked := ParkingSlotAdmin.mark_as_maintenance site selected since in
  let after := create_booking (tables marked) request_user method
                 location_id_ slot_id_ form_entry form_exit now in
  let before := create_booking (tables site) request_user method
                  location_id_ slot_id_ form_entry form_exit now in
  fst after = fst before
  /\ bookings (snd after) = bookings (snd before)
  /\ payments (snd after) = payments (snd before).
Proof.
  cbv zeta. unfold ParkingSlotAdmin.mark_as_maintenance.
  destruct (mark_keeps_slot_keys since
              (ParkingSlotAdmin.queryset site selected) site)
    as (ss & -> & Hkeys).
  now apply create_booking_reads_no_slot_status.
Qed.

Lemma in_existsb_eqb (k : Z) (l : list Z) :
  In k l -> existsb (Z.eqb k) l = true.
Proof.
  intros Hin. apply existsb_exists. exists k. split; [exact Hin | apply Z.eqb_refl].
Qed.

(** A slot marked as under maintenance is shown as under maintenance by
    the location page from the moment of the action on, and marking it as
    available again changes the stored status only: the page goes on
    showing MAINTENANCE, beside a stored status AVAILABLE. *)
Theorem maintenance_outlasts_mark_as_available
    (site : Site) (selected again : list Z) (since now : datetime)
    (location_id_ : Z) (rows : list (ParkingSlot * SlotStatus))
    (s : ParkingSlot) (shown : SlotStatus) :
  since <= now ->
  location_detail
    (ParkingSlotAdmin.mark_as_available
       (ParkingSlotAdmin.mark_as_maintenance site selected since) again)
    location_id_ now = Some rows ->
  In (s, shown) rows ->
  In (slot_id s) selected ->
  shown = STATUS_MAINTENANCE
  /\ (In (slot_id s) again -> slot_status s = STATUS_AVAILABLE).
Proof.
  intros Hsince Hpage Hrow Hsel. unfold location_detail in Hpage.
  destruct (get_active_location _ location_id_) as [loc|]; [ | discriminate].
  injection Hpage as <-. apply in_map_iff in Hrow.
  destruct Hrow as (s' & Heq & Hs'). injection Heq as -> <-.
  apply filter_In in Hs'. destruct Hs' as (Hs & _).
  unfold ParkingSlotAdmin.mark_as_available in Hs. simpl in Hs.
  apply in_map_iff in Hs. destruct Hs as (r & Hr & Hin).
  assert (Hid : slot_id r = slot_id s)
    by (subst s; now destruct (existsb (Z.eqb (slot_id r)) again)).
  split.
  - unfold current_status.
    replace (existsb (under_maintenance now s) _) with true; [reflexivity | ].
    symmetry. apply existsb_exists.
    unfold ParkingSlotAdmin.mark_as_available,
      ParkingSlotAdmin.mark_as_maintenance. simpl. rewrite mark_logs.
    unfold ParkingSlotAdmin.mark_as_maintenance in Hin.
    destruct (mark_keeps_slot_keys since
                (ParkingSlotAdmin.queryset site selected) site)
      as (ss & Htab & Hkeys).
    rewrite Htab in Hin. simpl in Hin.
    assert (Hkey : In (slot_key r) (map slot_key (slots (tables site))))
      by (rewrite <- Hkeys; now apply in_map).
    apply in_map_iff in Hkey. destruct Hkey as (r0 & Hr0 & Hin0).
    injection Hr0 as Hid0 _.
    exists {| maintenance_slot := slot_id r0; start_datetime := since;
              end_datetime := None |}. split.
    + apply in_or_app. right.
      apply (in_map (fun s0 => {| maintenance_slot := slot_id s0;
                                  start_datetime := since;
                                  end_datetime := None |})).
      apply filter_In. split; [exact Hin0 | ].
      apply in_existsb_eqb. now rewrite Hid0, Hid.
    + unfold under_maintenance. simpl.
      rewrite Hid0, Hid, Z.eqb_refl. simpl. rewrite andb_true_r.
      now apply Z.leb_le.
  - intros Hagain. rewrite <- Hid in Hagain.
    apply in_existsb_eqb in Hagain. rewrite Hagain in Hr. now subst s.
Qed.

Lemma maintenance_outlasts_mark_as_available_witness :
  let site := car_park_site Scenario.booked_9_to_11 in
  let since := Scenario.at_clock Scenario.monday 7 0 in
  let now := Scenario.at_clock Scenario.monday 15 0 in
  let slot_1 := {| slot_id := 1; slot_location := 1;
                   slot_status := STATUS_AVAILABLE |} in
  let slot_2 := {| slot_id := 2; slot_location := 1;
                   slot_status := STATUS_AVAILABLE |} in
  location_detail
    (ParkingSlotAdmin.mark_as_available
       (ParkingSlotAdmin.mark_as_maintenance site [1] since) [1]) 1 now
  = Some [(slot_1, STATUS_MAINTENANCE); (slot_2, STATUS_AVAILABLE)]
  /\ STATUS_MAINTENANCE = STATUS_MAINTENANCE
  /\ (In (slot_id slot_1) [1] -> slot_status slot_1 = STATUS_AVAILABLE).
Proof.
  cbv zeta. split; [vm_compute; reflexivity | ].
  eapply (maintenance_outlasts_mark_as_available
            (car_park_site Scenario.booked_9_to_11) [1] [1]
            (Scenario.at_clock Scenario.monday 7 0)
            (Scenario.at_clock Scenario.monday 15 0) 1).
  - vm_compute. discriminate.
  - vm_compute. reflexivity.
  - left. reflexivity.
  - left. reflexivity.
Defined.

(** A slot that the location page shows as BOOKED at some instant cannot
    be booked for any window with that instant strictly inside: the booking
    view refuses the request and writes nothing. *)
Theorem slot_shown_as_booked_is_refused
    (site : Site) (location_id_ : Z) (now : datetime)
    (rows : list (ParkingSlot * SlotStatus)) (s : ParkingSlot)
    (request_user : Z) (entry exit_ asked : datetime) :
  location_detail site location_id_ now = Some rows ->
  In (s, STATUS_BOOKED) rows ->
  entry < now < exit_ ->
  create_booking (tables site) request_user POST location_id_ (slot_id s)
                 (Some entry) (Some exit_) asked
  = (Redirect ERROR MsgSlotAlreadyBooked, tables site).
Proof.
  intros Hpage Hrow Hwindow. unfold location_detail in Hpage.
  unfold create_booking.
  destruct (get_active_location (tables site) location_id_) as [loc|];
    [ | discriminate].
  injection Hpage as <-. apply in_map_iff in Hrow.
  destruct Hrow as (s' & Heq & Hs'). injection Heq as -> Hshown.
  apply filter_In in Hs'. destruct Hs' as (Hs & Hloc).
  destruct (get_slot_of (tables site) (slot_id s) loc) as [found|] eqn:Hfound.
  - apply find_some in Hfound. destruct Hfound as (_ & Hkey).
    apply andb_true_iff in Hkey. destruct Hkey as (Hkey & _).
    apply Z.eqb_eq in Hkey. rewrite Hkey.
    unfold BookingForm_clean.
    replace (exit_ <=? entry) with false by (symmetry; apply Z.leb_gt; lia).
    replace (existsb (overlaps (slot_id s) entry exit_) (bookings (tables site)))
      with true; [reflexivity | ].
    symmetry. unfold current_status in Hshown.
    destruct (existsb (under_maintenance now s) _); [discriminate | ].
    destruct (existsb (active_booking now s) _) eqn:Hactive; [ | discriminate].
    apply existsb_exists in Hactive. destruct Hactive as (b & Hb & Hact).
    apply existsb_exists. exists b. split; [exact Hb | ].
    unfold active_booking in Hact. unfold overlaps.
    rewrite !andb_true_iff in Hact. destruct Hact as (((-> & ->) & He) & Hx).
    apply Z.leb_le in He. apply Z.geb_le in Hx. simpl.
    apply andb_true_iff. split; [apply Z.ltb_lt | apply Z.gtb_gt]; lia.
  - exfalso. unfold get_slot_of in Hfound.
    apply (find_none _ _ Hfound s) in Hs. rewrite Z.eqb_refl, Hloc in Hs.
    discriminate.
Qed.

Lemma slot_shown_as_booked_is_refused_witness :
  let site := car_park_site Scenario.booked_9_to_11 in
  create_booking (tables site) Scenario.alice POST 1 1
                 (Some (Scenario.at_clock Scenario.monday 9 30))
                 (Some (Scenario.at_clock Scenario.monday 10 30))
                 (Scenario.at_clock Scenario.monday 8 0)
  = (Redirect ERROR MsgSlotAlreadyBooked, tables site).
Proof.
  cbv zeta.
  eapply (slot_shown_as_booked_is_refused
            (car_park_site Scenario.booked_9_to_11) 1
            (Scenario.at_clock Scenario.monday 10 0) _
            {| slot_id := 1; slot_location := 1;
               slot_status := STATUS_AVAILABLE |}).
  - vm_compute. reflexivity.
  - left. reflexivity.
  - vm_compute. split; reflexivity.
Defined.

(** ** The revenue figure of the analytics dashboard *)

Lemma apply_op_keeps_revenue (db : DB) (op : Op) :
  takes_payment op = false ->
  admin_dashboard.total_revenue (apply_op db op)
  = admin_dashboard.total_revenue db.
Proof.
  intros Hop. unfold admin_dashboard.total_revenue.
  destruct op; try discriminate; cbn [apply_op].
  - now rewrite cancel_booking_writes_nothing.
  - now rewrite staff_scan_qr_payments.
  - unfold cleanup_reservations.handle. cbn [snd].
    now rewrite payments_fold_update.
  - unfold process_parking_automation.handle. cbn [snd].
    now rewrite payments_fine_overtime, payments_fold_remind.
Qed.

(** The total revenue of the analytics dashboard is the sum of the SUCCESS
    payments; only the two views that charge the user move it.  Requests
    to cancel, scans and both sweeps leave the figure as it was. *)
Theorem revenue_moves_only_when_the_user_is_charged
    (db : DB) (ops : list Op) :
  forallb (fun o => negb (takes_payment o)) ops = true ->
  admin_dashboard.total_revenue (run ops db)
  = admin_dashboard.total_revenue db.
Proof.
  unfold run. revert db. induction ops as [|op ops IH]; intros db Hops; simpl;
    [reflexivity | ].
  simpl in Hops. apply andb_true_iff in Hops. destruct Hops as (Hop & Hops).
  rewrite (IH _ Hops). apply apply_op_keeps_revenue.
  now apply negb_true_iff.
Qed.

Lemma revenue_moves_only_when_the_user_is_charged_witness :
  let db := Scenario.with_policies Scenario.booked_9_to_11
              [Scenario.global_0_100] in
  let later :=
    run [ OpCancel Scenario.alice POST 1
                   (Scenario.at_clock Scenario.monday 7 0);
          OpScan POST (Some 1) (Scenario.at_clock Scenario.monday 8 50);
          OpOvertimeSweep (Scenario.at_clock Scenario.monday 11 30);
          OpScan POST (Some 1) (Scenario.at_clock Scenario.monday 11 40);
          OpExpirySweep (Scenario.at_clock (Scenario.monday + 1) 0 0) ]
        db in
  (admin_dashboard.total_revenue db == 200)%Q
  /\ map status (bookings later) = [STATUS_COMPLETED]
  /\ length (fines later) = 1%nat
  /\ admin_dashboard.total_revenue later = admin_dashboard.total_revenue db.
Proof.
  cbv zeta. split; [vm_compute; reflexivity | ].
  split; [vm_compute; reflexivity | ].
  split; [vm_compute; reflexivity | ].
  apply revenue_moves_only_when_the_user_is_charged. reflexivity.
Defined.

(** ** The mask of the Aadhaar number *)

Lemma lstrip_starts_dark {char : Type} (isspace : char -> bool) (s : list char) :
  match lstrip isspace s with
  | [] => True
  | c :: _ => isspace c = false
  end.
Proof.
  induction s as [|c s IH]; simpl; [exact I | ].
  destruct (isspace c) eqn:Hc; [exact IH | exact Hc].
Qed.

Lemma lstrip_of_dark {char : Type} (isspace : char -> bool) (c : char)
    (s : list char) :
  isspace c = false -> lstrip isspace (c :: s) = c :: s.
Proof. intros Hc. simpl. now rewrite Hc. Qed.

Lemma strip_of_dark_ends {char : Type} (isspace : char -> bool)
    (c d : char) (s r : list char) :
  isspace c = false -> isspace d = false -> rev (c :: s) = d :: r ->
  strip isspace (c :: s) = c :: s.
Proof.
  intros Hc Hd Hrev. unfold strip.
  rewrite (lstrip_of_dark isspace c s Hc), Hrev.
  rewrite (lstrip_of_dark isspace d r Hd), <- Hrev. apply rev_involutive.
Qed.

Lemma strip_ends_dark {char : Type} (isspace : char -> bool) (s : list char) :
  match rev (strip isspace s) with
  | [] => True
  | d :: _ => isspace d = false
  end.
Proof.
  unfold strip. rewrite rev_involutive. apply lstrip_starts_dark.
Qed.

Lemma last4_length {char : Type} (s : list char) :
  length (last4 s) = Nat.min 4 (length s).
Proof. unfold last4. rewrite length_skipn. lia. Qed.

Lemma last4_is_the_end {char : Type} (s : list char) :
  firstn (length s - 4) s ++ last4 s = s.
Proof. apply firstn_skipn. Qed.

Lemma last4_after_mask {char : Type} (X dash : char) (u : list char) :
  length u = 4%nat -> last4 (mask X dash ++ u) = u.
Proof.
  intros Hu. unfold last4. rewrite length_app, Hu. simpl length.
  replace (10 + 4 - 4)%nat with (length (mask X dash) + 0)%nat by reflexivity.
  now rewrite skipn_app, Nat.add_0_r, skipn_all, Nat.sub_diag.
Qed.

Lemma masked_is_stripped {char : Type} (isspace : char -> bool)
    (X dash : char) (a : list char) :
  isspace X = false -> strip isspace a <> [] ->
  strip isspace (mask X dash ++ last4 (strip isspace a))
  = mask X dash ++ last4 (strip isspace a).
Proof.
  intros HX Hne. set (t := strip isspace a) in *.
  pose proof (strip_ends_dark isspace a) as Hend. fold t in Hend.
  pose proof (last4_is_the_end t) as Hsplit.
  pose proof (last4_length t) as Hlen.
  set (u := last4 t) in *.
  assert (Hu : rev u <> []).
  { intros E. apply (f_equal (@length char)) in E. rewrite length_rev in E.
    destruct t; [now apply Hne | simpl in *; lia]. }
  destruct (rev u) as [|d r] eqn:Hrev; [now contradiction Hu | ].
  assert (Hd : isspace d = false).
  { rewrite <- Hsplit, rev_app_distr, Hrev in Hend. exact Hend. }
  apply (strip_of_dark_ends isspace X d _ (r ++ rev (mask X dash)) HX Hd).
  change (X :: _) with (mask X dash ++ u).
  now rewrite rev_app_distr, Hrev.
Qed.

(** The masked Aadhaar number is empty for a blank input and otherwise the
    mask followed by the last characters of the stripped input, four of
    them or the whole of a shorter input.  With a mask letter that is no
    whitespace, masking a masked number gives it back exactly when the
    stripped input is empty or has at least four characters. *)
Theorem clean_aadhaar_shows_the_last_four
    {char : Type} (isspace : char -> bool) (X dash : char) (a : list char) :
  isspace X = false ->
  (strip isspace a = [] -> clean_aadhaar isspace X dash a = [])
  /\ (strip isspace a <> [] ->
      exists hidden shown,
        strip isspace a = hidden ++ shown
        /\ length shown = Nat.min 4 (length (strip isspace a))
        /\ clean_aadhaar isspace X dash a = mask X dash ++ shown)
  /\ (clean_aadhaar isspace X dash (clean_aadhaar isspace X dash a)
      = clean_aadhaar isspace X dash a
      <-> strip isspace a = [] \/ (4 <= length (strip isspace a))%nat).
Proof.
  intros HX.
  assert (Hfull : strip isspace a <> [] ->
                  clean_aadhaar isspace X dash a
                  = mask X dash ++ last4 (strip isspace a)).
  { unfold clean_aadhaar. cbv zeta.
    destruct (strip isspace a); [intros H; now contradiction H | reflexivity]. }
  split; [ | split].
  - unfold clean_aadhaar. now intros ->.
  - intros Hne.
    exists (firstn (length (strip isspace a) - 4) (strip isspace a)),
           (last4 (strip isspace a)).
    repeat split.
    + symmetry. apply last4_is_the_end.
    + apply last4_length.
    + now apply Hfull.
  - assert (Hcases : strip isspace a = [] \/ strip isspace a <> [])
      by (destruct (strip isspace a); [now left | right; discriminate]).
    destruct Hcases as [Hnil | Hne].
    + split; [now left | intros _].
      assert (Hblank : clean_aadhaar isspace X dash a = [])
        by (unfold clean_aadhaar; now rewrite Hnil).
      rewrite Hblank. reflexivity.
    + rewrite (Hfull Hne).
      pose proof (masked_is_stripped isspace X dash a HX Hne) as Hagain.
      pose proof (last4_length (strip isspace a)) as Hlen.
      set (u := last4 (strip isspace a)) in *.
      assert (Hmasked : clean_aadhaar isspace X dash (mask X dash ++ u)
                        = mask X dash ++ last4 (mask X dash ++ u))
        by (unfold clean_aadhaar; cbv zeta; rewrite Hagain; reflexivity).
      rewrite Hmasked. split.
      * intros Heq. right. apply app_inv_head in Heq.
        apply (f_equal (@length char)) in Heq.
        rewrite last4_length, length_app in Heq. simpl length in Heq. lia.
      * intros [Hnil | Hlong]; [now contradiction Hne | ].
        f_equal. apply last4_after_mask. lia.
Qed.

Lemma clean_aadhaar_shows_the_last_four_witness :
  let a := [32; 49; 50; 51; 52; 53; 54; 32] in
  strip ascii_space a = [49; 50; 51; 52; 53; 54]
  /\ clean_aadhaar ascii_space 88 45 a
     = [88; 88; 88; 88; 45; 88; 88; 88; 88; 45; 51; 52; 53; 54]
  /\ (clean_aadhaar ascii_space 88 45 (clean_aadhaar ascii_space 88 45 a)
      = clean_aadhaar ascii_space 88 45 a
      <-> strip ascii_space a = [] \/ (4 <= length (strip ascii_space a))%nat).
Proof.
  cbv zeta. split; [reflexivity | split; [reflexivity | ]].
  apply (clean_aadhaar_shows_the_last_four ascii_space 88 45). reflexivity.
Defined.

(** ** The lists of the user dashboard *)

Lemma in_insert_by_entry (b x : Booking) (l : list Booking) :
  In x (insert_by_entry b l) <-> x = b \/ In x l.
Proof.
  induction l as [|c l IH]; simpl; [intuition congruence | ].
  destruct (entry_datetime_expected b <? entry_datetime_expected c); simpl;
    [rewrite IH | ]; intuition congruence.
Qed.

Lemma in_order_by_entry_desc (x : Booking) (l : list Booking) :
  In x (order_by_entry_desc l) <-> In x l.
Proof.
  induction l as [|b l IH]; simpl; [reflexivity | ].
  rewrite in_insert_by_entry, IH. intuition congruence.
Qed.

Lemma insert_by_entry_newest_first (b : Booking) (l : list Booking) :
  newest_first l -> newest_first (insert_by_entry b l).
Proof.
  induction l as [|c l IH]; simpl; [intros _; split; [intros ? [] | exact I] | ].
  intros (Hc & Hl).
  destruct (entry_datetime_expected b <? entry_datetime_expected c) eqn:E; simpl.
  - apply Z.ltb_lt in E. split; [ | now apply IH].
    intros x Hx. apply in_insert_by_entry in Hx.
    destruct Hx as [-> | Hx]; [lia | now apply Hc].
  - apply Z.ltb_ge in E. split; [ | now split].
    intros x [<- | Hx]; [lia | ]. specialize (Hc x Hx). lia.
Qed.

Lemma order_by_entry_desc_newest_first (l : list Booking) :
  newest_first (order_by_entry_desc l).
Proof.
  induction l as [|b l IH]; simpl; [exact I | ].
  now apply insert_by_entry_newest_first.
Qed.

Lemma in_cut (n : nat) (l : list Booking) (b : Booking) :
  In b (firstn n l) \/ In b (skipn n l) -> In b l.
Proof.
  intros Hb. rewrite <- (firstn_skipn n l). apply in_or_app. exact Hb.
Qed.

Lemma newest_first_split (n : nat) (l : list Booking) :
  newest_first l ->
  newest_first (firstn n l)
  /\ forall b c, In b (firstn n l) -> In c (skipn n l) ->
       entry_datetime_expected c <= entry_datetime_expected b.
Proof.
  revert n. induction l as [|a l IH]; intros [|n] Hl;
    try (split; [exact I | now intros ? ? []]).
  destruct Hl as (Ha & Hl). destruct (IH n Hl) as (Hfirst & Hcut).
  split; [split; [ | exact Hfirst] | ].
  - intros c Hc. apply Ha. apply (in_cut n). now left.
  - intros b c [<- | Hb] Hc; [ | now apply Hcut].
    apply Ha. apply (in_cut n). now right.
Qed.

Lemma of_user_in_iff (request_user : Z) (statuses : list BookingStatus)
    (b : Booking) :
  dashboard.of_user_in request_user statuses b = true
  <-> user b = request_user /\ In (status b) statuses.
Proof.
  unfold dashboard.of_user_in.
  rewrite andb_true_iff, Z.eqb_eq, existsb_exists.
  split; intros (Hu & Hs); (split; [exact Hu | ]).
  - destruct Hs as (st & Hin & Heq). apply booking_status_eqb_true in Heq.
    now rewrite Heq.
  - exists (status b). split; [exact Hs | now apply booking_status_eqb_true].
Qed.

(** The user dashboard lists as active exactly the user's own confirmed
    bookings, and as past only the user's own completed or cancelled ones,
    ten at most; both lists run from the latest expected entry to the
    earliest, and a past booking that is left out starts no later than any
    of the ten that are shown. *)
Theorem dashboard_lists_the_users_bookings (db : DB) (request_user : Z) :
  (forall b, In b (dashboard.active_bookings db request_user)
             <-> In b (bookings db) /\ user b = request_user
                 /\ status b = STATUS_CONFIRMED)
  /\ (forall b, In b (dashboard.past_bookings db request_user) ->
                In b (bookings db) /\ user b = request_user
                /\ (status b = STATUS_COMPLETED \/ status b = STATUS_CANCELLED))
  /\ (length (dashboard.past_bookings db request_user) <= 10)%nat
  /\ newest_first (dashboard.active_bookings db request_user)
  /\ newest_first (dashboard.past_bookings db request_user)
  /\ (forall b, In b (bookings db) -> user b = request_user ->
                status b = STATUS_COMPLETED \/ status b = STATUS_CANCELLED ->
                In b (dashboard.past_bookings db request_user)
                \/ (length (dashboard.past_bookings db request_user) = 10%nat
                    /\ forall c, In c (dashboard.past_bookings db request_user) ->
                         entry_datetime_expected b <= entry_datetime_expected c)).
Proof.
  unfold dashboard.active_bookings, dashboard.past_bookings.
  set (past := order_by_entry_desc
                 (filter (dashboard.of_user_in request_user
                            [STATUS_COMPLETED; STATUS_CANCELLED])
                         (bookings db))).
  assert (Hpast : forall b, In b past
                            <-> In b (bookings db) /\ user b = request_user
                                /\ (status b = STATUS_COMPLETED
                                    \/ status b = STATUS_CANCELLED)).
  { intros b. unfold past.
    rewrite in_order_by_entry_desc, filter_In, of_user_in_iff. simpl.
    intuition congruence. }
  destruct (newest_first_split 10 past
              (order_by_entry_desc_newest_first _)) as (Hfirst & Hcut).
  split; [ | split; [ | split; [ | split; [ | split]]]].
  - intros b. rewrite in_order_by_entry_desc, filter_In, of_user_in_iff. simpl.
    intuition congruence.
  - intros b Hb. apply Hpast. apply (in_cut 10). now left.
  - apply firstn_le_length.
  - apply order_by_entry_desc_newest_first.
  - exact Hfirst.
  - intros b Hin Hu Hst.
    assert (Hb : In b past) by (apply Hpast; tauto).
    rewrite <- (firstn_skipn 10 past) in Hb. apply in_app_or in Hb.
    destruct Hb as [Hb | Hb]; [now left | right]. split.
    + rewrite length_firstn. apply Nat.min_l.
      assert (length (skipn 10 past) <> 0)%nat
        by (destruct (skipn 10 past); [destruct Hb | discriminate]).
      rewrite length_skipn in *. lia.
    + intros c Hc. now apply (Hcut c b).
Qed.

(** ** Cancellations and extensions never go through *)

(** [cancel_booking] never cancels.  Whatever the database and the
    request, it writes nothing and answers "not found", the refusal of a
    booking that has started, or [TypeError]; and for a confirmed booking
    of the user that has not started it is [TypeError], whatever the method
    and the policies. *)
Theorem cancel_booking_never_cancels :
  (forall db request_user method booking_id now,
      snd (cancel_booking db request_user method booking_id now) = db
      /\ (fst (cancel_booking db request_user method booking_id now) = Http404
          \/ fst (cancel_booking db request_user method booking_id now)
             = Redirect ERROR MsgOnlyCancelBeforeStart
          \/ fst (cancel_booking db request_user method booking_id now)
             = Raised TypeError))
  /\ (forall db request_user method booking_id now booking,
         get_confirmed_booking db booking_id request_user = Some booking ->
         now < entry_datetime_expected booking ->
         cancel_booking db request_user method booking_id now
         = (Raised TypeError, db)).
Proof.
  split.
  - intros db request_user method booking_id now.
    destruct (cancel_booking_cases db request_user method booking_id now)
      as [-> | [-> | ->]]; simpl; auto.
  - intros db request_user method booking_id now booking.
    apply cancel_booking_before_start.
Qed.


